(** * zap2telegram: a zap core that forwards log entries to Telegram chats

    A shallow embedding of [telegram.go] (the Telegram client and the
    [TelegramCore]) and of the options file, followed by the properties of
    the routing and delivery engine.

    Go values that live behind a pointer and are written after they are
    created are kept in an explicit [World]: the backing arrays of
    [[]zapcore.Field] slices, the buffered channels, the goroutines that
    were started, and the calls made on the Telegram API. Code that reads
    or writes them is written in the monad [M]. *)

From Stdlib Require Import String DecimalString ZArith Bool Arith List Lia.
Import ListNotations.

Set Implicit Arguments.

(* ====================================================================== *)
(** * The libraries the package builds on *)
(* ====================================================================== *)

(** ** go.uber.org/zap/zapcore (v1.23.0): levels, entries, fields *)
Module zapcore.

(** [type Level int8]; the code only compares levels, so no arithmetic
    wraps around. *)
Definition Level := Z.

Definition DebugLevel  : Level := (-1)%Z.
Definition InfoLevel   : Level := 0%Z.
Definition WarnLevel   : Level := 1%Z.
Definition ErrorLevel  : Level := 2%Z.
Definition DPanicLevel : Level := 3%Z.
Definition PanicLevel  : Level := 4%Z.
Definition FatalLevel  : Level := 5%Z.

(** [func (l Level) Enabled(lvl Level) bool { return lvl >= l }] *)
Definition Level_Enabled (l lvl : Level) : bool := (l <=? lvl)%Z.

(** [func (l Level) String() string] *)
Definition Level_String (l : Level) : string :=
  if (l =? DebugLevel)%Z then "debug"
  else if (l =? InfoLevel)%Z then "info"
  else if (l =? WarnLevel)%Z then "warn"
  else if (l =? ErrorLevel)%Z then "error"
  else if (l =? DPanicLevel)%Z then "dpanic"
  else if (l =? PanicLevel)%Z then "panic"
  else if (l =? FatalLevel)%Z then "fatal"
  else ("Level(" ++ NilZero.string_of_int (Z.to_int l) ++ ")")%string.

(** The interface [LevelEnabler] and the two implementations met here. *)
Class LevelEnabler (T : Type) := { Enabled : T -> Level -> bool }.

#[global] Instance Level_LevelEnabler : LevelEnabler Level :=
  {| Enabled := Level_Enabled |}.

(** [zap.AtomicLevel]: a level behind a pointer; the package never calls
    [SetLevel], so the level it was created at is the level it has. *)
Record AtomicLevel := { al_Level : Level }.

(** [zap.NewAtomicLevelAt] *)
Definition NewAtomicLevelAt (l : Level) : AtomicLevel := {| al_Level := l |}.

#[global] Instance AtomicLevel_LevelEnabler : LevelEnabler AtomicLevel :=
  {| Enabled := fun a lvl => Level_Enabled (al_Level a) lvl |}.

(** [zapcore.Field], without its [Interface] member. *)
Record Field := {
  Key     : string;
  Type_   : Z;
  Integer : Z;
  String_ : string
}.

(** The zero [Field], what a fresh backing array holds. *)
Definition zeroField : Field :=
  {| Key := EmptyString; Type_ := 0%Z; Integer := 0%Z; String_ := EmptyString |}.

(** [zapcore.Entry]. [Entry_Time] is the [time.Time] of the entry kept as
    the text [%s] prints for it, the only use made of it; [Caller] is not
    read by the package. *)
Record Entry := {
  Entry_Level      : Level;
  Entry_Time       : string;
  Entry_LoggerName : string;
  Entry_Message    : string;
  Entry_Stack      : string
}.

End zapcore.
Import zapcore.

(** ** github.com/go-telegram-bot-api/telegram-bot-api/v5 *)
Module tgbotapi.

(** The members of [MessageConfig] the package sets. *)
Record MessageConfig := {
  ChatID              : Z;
  Text                : string;
  DisableNotification : bool;
  ParseMode           : string
}.

(** [tgbotapi.NewMessage] *)
Definition NewMessage (chatID : Z) (text : string) : MessageConfig :=
  {| ChatID := chatID; Text := text;
     DisableNotification := false; ParseMode := EmptyString |}.

Definition set_DisableNotification (b : bool) (m : MessageConfig) : MessageConfig :=
  {| ChatID := ChatID m; Text := Text m;
     DisableNotification := b; ParseMode := ParseMode m |}.

Definition set_ParseMode (p : string) (m : MessageConfig) : MessageConfig :=
  {| ChatID := ChatID m; Text := Text m;
     DisableNotification := DisableNotification m; ParseMode := p |}.

(** [*tgbotapi.BotAPI] *)
Record BotAPI := { Token : string }.

End tgbotapi.
Import tgbotapi.

(** ** Go error values *)

(** The errors the package declares, wraps or passes on. *)
Inductive error : Type :=
| ErrBotAccessToken                       (* "bot access token not defined" *)
| ErrChatIDs                              (* "chat ids not defined" *)
| ErrAsyncOpt                             (* "async option not worked with queue option" *)
| ErrLibrary (msg : string)               (* an error made by a library *)
| ErrNewBot (cause : error)               (* "failed to create a new Telegram bot API instance: %w" *)
| ErrSendChat (chatID : Z) (cause : error) (* "failed to send message to chat %d: %w" *)
| Canceled                                (* context.Canceled *)
| DeadlineExceeded.                       (* context.DeadlineExceeded *)

(** [context.Context], by what the drain loop asks of it: the error [Err()]
    reports once [Done()] is closed. *)
Record Context := { ctx_Err : error }.

(* ====================================================================== *)
(** * The world: slices, channels, goroutines, the Telegram API *)
(* ====================================================================== *)

(** A Go slice header: a backing array in the heap, where the slice
    starts in it, its length and its capacity. *)
Record Slice := {
  s_arr : nat;
  s_off : nat;
  s_len : nat;
  s_cap : nat
}.

(** [[]zapcore.Field{}] *)
Definition emptySlice : Slice := {| s_arr := 0; s_off := 0; s_len := 0; s_cap := 0 |}.

(** telegramClient is a Telegram client *)
Record telegramClient := {
  botAPI                     : BotAPI;
  chatIDs                    : list Z;
  disableNotification        : bool;
  enableNotificationOnLevels : list Level;
  parseMode                  : option string;
  formatter                  : option (Entry -> list Field -> string)
}.

Record chanEntry := {
  entry  : Entry;
  fields : Slice
}.

(** [TelegramCore]. The embedded [zapcore.Core] is never set and left out.
    [levels] is the member the options [WithLevel] and [WithStrongLevel]
    assign; [entriesChan] is a channel of the world, [None] the nil
    channel. The client sits behind a pointer shared by a core and the
    cores derived from it; it is written by options only, before the core
    is handed out, so each core carries its value. *)
Record TelegramCore := {
  inheritedFields : Slice;
  tgClient        : telegramClient;
  enabler         : AtomicLevel;
  levels          : list Level;
  async           : bool;
  queue           : bool;
  intervalQueue   : Z;
  entriesChan     : option nat
}.

(** A buffered channel of [chanEntry]. *)
Record Chan := {
  ch_cap : nat;
  ch_buf : list chanEntry
}.

(** What a [go] statement started. *)
Inductive Task : Type :=
| GoSendMessage (c : telegramClient) (e : Entry) (entryFields : Slice)
| GoConsumeEntriesQueue (h : TelegramCore) (ctx : Context).

Record World := {
  heap       : list (list Field);   (* backing arrays of field slices *)
  chans      : list Chan;           (* channels made so far *)
  goroutines : list Task;           (* goroutines started, oldest first *)
  sendCalls  : list MessageConfig;  (* messages handed to botAPI.Send, oldest first *)
  stdlog     : list error;          (* what log.Println printed *)
  (* the surroundings: they are read, never written *)
  telegram   : list MessageConfig -> MessageConfig -> option error;
                                    (* Telegram's answer to a Send, given the earlier ones *)
  getMe      : string -> option error;
                                    (* the token check tgbotapi.NewBotAPI makes *)
  growslice  : nat -> nat -> nat    (* spare room the runtime adds when a slice of
                                       this capacity grows to this length *)
}.

Definition set_heap (h : list (list Field)) (w : World) : World :=
  {| heap := h; chans := chans w; goroutines := goroutines w;
     sendCalls := sendCalls w; stdlog := stdlog w;
     telegram := telegram w; getMe := getMe w; growslice := growslice w |}.

Definition set_chans (c : list Chan) (w : World) : World :=
  {| heap := heap w; chans := c; goroutines := goroutines w;
     sendCalls := sendCalls w; stdlog := stdlog w;
     telegram := telegram w; getMe := getMe w; growslice := growslice w |}.

Definition set_goroutines (g : list Task) (w : World) : World :=
  {| heap := heap w; chans := chans w; goroutines := g;
     sendCalls := sendCalls w; stdlog := stdlog w;
     telegram := telegram w; getMe := getMe w; growslice := growslice w |}.

Definition set_sendCalls (s : list MessageConfig) (w : World) : World :=
  {| heap := heap w; chans := chans w; goroutines := goroutines w;
     sendCalls := s; stdlog := stdlog w;
     telegram := telegram w; getMe := getMe w; growslice := growslice w |}.

Definition set_stdlog (l : list error) (w : World) : World :=
  {| heap := heap w; chans := chans w; goroutines := goroutines w;
     sendCalls := sendCalls w; stdlog := l;
     telegram := telegram w; getMe := getMe w; growslice := growslice w |}.

(** ** The monad of code that runs in the world *)

Inductive Outcome (A : Type) : Type :=
| Ret (a : A) (w : World)     (* the call returned [a] *)
| Blocked                     (* parked on a channel operation nothing completes *)
| Panicked (msg : string)     (* a run-time panic *)
| OutOfFuel.                  (* the bound given to a loop was too small *)
Arguments Blocked {A}.
Arguments Panicked {A} msg.
Arguments OutOfFuel {A}.

Definition M (A : Type) : Type := World -> Outcome A.

Definition ret {A} (a : A) : M A := fun w => Ret a w.

Definition bind {A B} (m : M A) (k : A -> M B) : M B :=
  fun w => match m w with
           | Ret a w' => k a w'
           | Blocked => Blocked
           | Panicked msg => Panicked msg
           | OutOfFuel => OutOfFuel
           end.

(** [panic(msg)] *)
Definition panic {A} (msg : string) : M A := fun _ => Panicked msg.

Declare Scope go_scope.
Delimit Scope go_scope with go.
Notation "x <- m ;; k" := (bind m (fun x => k))
  (at level 61, m at next level, right associativity) : go_scope.
Notation "m ;;; k" := (bind m (fun _ => k))
  (at level 61, right associativity) : go_scope.
Local Open Scope go_scope.

(** ** Slices *)

(** Replace element [i] of a list; nothing happens out of range. *)
Fixpoint update {A} (i : nat) (x : A) (l : list A) : list A :=
  match l, i with
  | [], _ => []
  | _ :: t, 0 => x :: t
  | h :: t, S j => h :: update j x t
  end.

(** The elements a slice shows. *)
Definition view (s : Slice) (w : World) : list Field :=
  firstn (s_len s) (skipn (s_off s) (nth (s_arr s) (heap w) [])).

(** A slice that fits its backing array. *)
Definition wf_slice (w : World) (s : Slice) : Prop :=
  s_len s <= s_cap s /\ s_off s + s_cap s <= length (nth (s_arr s) (heap w) []).

(** [append(s, xs...)]. With room left in the backing array the new
    elements are copied behind the last one, in place, and the slice
    returned shares the array; otherwise a new array is allocated, of the
    length needed plus the spare room the runtime adds, and filled with
    the old elements and the new. [xs] holds the elements as they are
    when the copy starts (a copy of overlapping memory is a memmove). *)
Definition append (s : Slice) (xs : list Field) : M Slice := fun w =>
  let n := length xs in
  if s_len s + n <=? s_cap s then
    let a := nth (s_arr s) (heap w) [] in
    let p := s_off s + s_len s in
    Ret {| s_arr := s_arr s; s_off := s_off s;
           s_len := s_len s + n; s_cap := s_cap s |}
        (set_heap (update (s_arr s) (firstn p a ++ xs ++ skipn (p + n) a) (heap w)) w)
  else
    let spare := growslice w (s_cap s) (s_len s + n) in
    Ret {| s_arr := length (heap w); s_off := 0;
           s_len := s_len s + n; s_cap := s_len s + n + spare |}
        (set_heap (heap w ++ [view s w ++ xs ++ repeat zeroField spare]) w).

(** Reading a slice. *)
Definition load (s : Slice) : M (list Field) := fun w => Ret (view s w) w.

(** ** Channels *)

(** [make(chan chanEntry, size)] *)
Definition make_chan (size : Z) : M (option nat) := fun w =>
  if (size <? 0)%Z then Panicked "makechan: size out of range"
  else Ret (Some (length (chans w)))
           (set_chans (chans w ++ [{| ch_cap := Z.to_nat size; ch_buf := [] |}]) w).

(** [len(ch)]; the nil channel has length 0. *)
Definition chan_len (ch : option nat) (w : World) : nat :=
  match ch with
  | None => 0
  | Some i => match nth_error (chans w) i with
              | Some c => length (ch_buf c)
              | None => 0
              end
  end.

(** [ch <- x]: blocks on the nil channel and on a full buffer. *)
Definition chan_send (ch : option nat) (x : chanEntry) : M unit := fun w =>
  match ch with
  | None => Blocked
  | Some i => match nth_error (chans w) i with
              | Some c =>
                  if length (ch_buf c) <? ch_cap c
                  then Ret tt (set_chans (update i {| ch_cap := ch_cap c;
                                                      ch_buf := ch_buf c ++ [x] |}
                                                 (chans w)) w)
                  else Blocked
              | None => Blocked
              end
  end.

(** [<-ch]: blocks on the nil channel and on an empty buffer. *)
Definition chan_recv (ch : option nat) : M chanEntry := fun w =>
  match ch with
  | None => Blocked
  | Some i => match nth_error (chans w) i with
              | Some c =>
                  match ch_buf c with
                  | x :: rest =>
                      Ret x (set_chans (update i {| ch_cap := ch_cap c; ch_buf := rest |}
                                               (chans w)) w)
                  | [] => Blocked
                  end
              | None => Blocked
              end
  end.

(** ** Goroutines, the log, the Telegram API *)

(** [go f()] *)
Definition go (t : Task) : M unit := fun w =>
  Ret tt (set_goroutines (goroutines w ++ [t]) w).

(** [log.Println(err)] *)
Definition log_Println (err : error) : M unit := fun w =>
  Ret tt (set_stdlog (stdlog w ++ [err]) w).

(** [c.botAPI.Send(msg)]: the call is recorded, Telegram answers. *)
Definition botAPI_Send (msg : MessageConfig) : M (option error) := fun w =>
  Ret (telegram w (sendCalls w) msg) (set_sendCalls (sendCalls w ++ [msg]) w).


(* ====================================================================== *)
(** * telegram.go: the Telegram client *)
(* ====================================================================== *)

(** telegramClient default options *)
Definition defaultLoggerName : string := "zap2telegram".
Definition defaultDisableNotification : bool := false.

(** [tgbotapi.NewBotAPI(token)]: the bot, or the error of the token check. *)
Definition NewBotAPI (token : string) : M (error + BotAPI) := fun w =>
  match getMe w token with
  | Some err => Ret (inl err) w
  | None => Ret (inr {| Token := token |}) w
  end.

(** newTelegramClient returns a new Telegram client with the specified options *)
Definition newTelegramClient (botAccesstoken : string) (chatIDs : list Z)
  : M (error + telegramClient) :=
  r <- NewBotAPI botAccesstoken ;;
  match r with
  | inl err => ret (inl (ErrNewBot err))
  | inr bot =>
      ret (inr {| botAPI := bot;
                  chatIDs := chatIDs;
                  disableNotification := defaultDisableNotification;
                  enableNotificationOnLevels := [];
                  parseMode := None;
                  formatter := None |})
  end.

Definition newline : string := String (Ascii.ascii_of_nat 10) EmptyString.

(** [formatMessage]: the custom formatter when there is one, else
    ["Logger: %s\n%s\n%s\n%s"]. *)
Definition formatMessage (c : telegramClient) (e : Entry) (fields : list Field) : string :=
  match formatter c with
  | Some f => f e fields
  | None =>
      let loggerName :=
        if String.eqb (Entry_LoggerName e) EmptyString
        then defaultLoggerName else Entry_LoggerName e in
      ("Logger: " ++ loggerName ++ newline ++ Entry_Time e ++ newline
         ++ Level_String (Entry_Level e) ++ newline ++ Entry_Message e)%string
  end.

(** The loop over [enableNotificationOnLevels], left at the first level
    equal to the entry's. *)
Fixpoint enableNotificationOn (levels : list Level) (l : Level) (msg : MessageConfig)
  : MessageConfig :=
  match levels with
  | [] => msg
  | level :: rest =>
      if (l =? level)%Z
      then set_DisableNotification false msg   (* enable notification for this message *)
      else enableNotificationOn rest l msg
  end.

(** The message [sendMessage] builds for one chat (its lines 58 to 70). *)
Definition chatMessage (c : telegramClient) (chatID : Z) (e : Entry) (fields : list Field)
  : MessageConfig :=
  let msg := NewMessage chatID (formatMessage c e fields) in
  let msg := set_DisableNotification (disableNotification c) msg in
  let msg :=
    if 0 <? length (enableNotificationOnLevels c)
    then enableNotificationOn (enableNotificationOnLevels c) (Entry_Level e) msg
    else msg in
  match parseMode c with
  | Some p => set_ParseMode p msg
  | None => msg
  end.

(** The [for _, chatID := range c.chatIDs] of [sendMessage], from the chat
    ids not yet visited. *)
Fixpoint sendMessage_range (c : telegramClient) (ids : list Z) (e : Entry) (fields : Slice)
  : M (option error) :=
  match ids with
  | [] => ret None
  | chatID :: rest =>
      fs <- load fields ;;
      r <- botAPI_Send (chatMessage c chatID e fs) ;;
      match r with
      | Some err =>
          let err := ErrSendChat chatID err in
          log_Println err ;;;
          ret (Some err)
      | None => sendMessage_range c rest e fields
      end
  end.

(** sendMessage sends a message all specified chat ids *)
Definition sendMessage (c : telegramClient) (e : Entry) (fields : Slice) : M (option error) :=
  sendMessage_range c (chatIDs c) e fields.

(* ====================================================================== *)
(** * telegram.go: the core *)
(* ====================================================================== *)

(** zap2telegram default options *)
Definition defaultLevel : Level := WarnLevel.
Definition defaultAsyncOpt : bool := true.
Definition defaultQueueOpt : bool := false.

(** All levels provided by zap *)
Definition AllLevels : list Level :=
  [DebugLevel; InfoLevel; WarnLevel; ErrorLevel; FatalLevel; PanicLevel].

Definition set_inheritedFields (s : Slice) (c : TelegramCore) : TelegramCore :=
  {| inheritedFields := s; tgClient := tgClient c; enabler := enabler c;
     levels := levels c; async := async c; queue := queue c;
     intervalQueue := intervalQueue c; entriesChan := entriesChan c |}.

Definition set_tgClient (t : telegramClient) (c : TelegramCore) : TelegramCore :=
  {| inheritedFields := inheritedFields c; tgClient := t; enabler := enabler c;
     levels := levels c; async := async c; queue := queue c;
     intervalQueue := intervalQueue c; entriesChan := entriesChan c |}.

Definition set_levels (l : list Level) (c : TelegramCore) : TelegramCore :=
  {| inheritedFields := inheritedFields c; tgClient := tgClient c; enabler := enabler c;
     levels := l; async := async c; queue := queue c;
     intervalQueue := intervalQueue c; entriesChan := entriesChan c |}.

Definition set_async (b : bool) (c : TelegramCore) : TelegramCore :=
  {| inheritedFields := inheritedFields c; tgClient := tgClient c; enabler := enabler c;
     levels := levels c; async := b; queue := queue c;
     intervalQueue := intervalQueue c; entriesChan := entriesChan c |}.

Definition set_queue (b : bool) (c : TelegramCore) : TelegramCore :=
  {| inheritedFields := inheritedFields c; tgClient := tgClient c; enabler := enabler c;
     levels := levels c; async := async c; queue := b;
     intervalQueue := intervalQueue c; entriesChan := entriesChan c |}.

Definition set_intervalQueue (d : Z) (c : TelegramCore) : TelegramCore :=
  {| inheritedFields := inheritedFields c; tgClient := tgClient c; enabler := enabler c;
     levels := levels c; async := async c; queue := queue c;
     intervalQueue := d; entriesChan := entriesChan c |}.

Definition set_entriesChan (ch : option nat) (c : TelegramCore) : TelegramCore :=
  {| inheritedFields := inheritedFields c; tgClient := tgClient c; enabler := enabler c;
     levels := levels c; async := async c; queue := queue c;
     intervalQueue := intervalQueue c; entriesChan := ch |}.

Definition set_enabler (a : AtomicLevel) (c : TelegramCore) : TelegramCore :=
  {| inheritedFields := inheritedFields c; tgClient := tgClient c; enabler := a;
     levels := levels c; async := async c; queue := queue c;
     intervalQueue := intervalQueue c; entriesChan := entriesChan c |}.

(** [Option], a function from a pointer to a core to an error: an option
    writes through the pointer it is given; the core it leaves is returned with its error. *)
Definition Option : Type := TelegramCore -> M (TelegramCore * option error).

(** The [for _, opt := range opts] of [NewTelegramCore]. *)
Fixpoint applyOptions (opts : list Option) (c : TelegramCore)
  : M (TelegramCore * option error) :=
  match opts with
  | [] => ret (c, None)
  | opt :: rest =>
      r <- opt c ;;
      match r with
      | (c', Some err) => ret (c', Some err)
      | (c', None) => applyOptions rest c'
      end
  end.

(** NewTelegramCore returns a new zap2telegram instance configured with the given options *)
Definition NewTelegramCore (botAccessToken : string) (chatIDs : list Z) (opts : list Option)
  : M (option TelegramCore * option error) :=
  if String.eqb botAccessToken EmptyString then ret (None, Some ErrBotAccessToken)
  else if length chatIDs =? 0 then ret (None, Some ErrChatIDs)
  else
    r <- newTelegramClient botAccessToken chatIDs ;;
    match r with
    | inl err => ret (None, Some err)
    | inr telegramClient =>
        let c := {| inheritedFields := emptySlice;
                    tgClient := telegramClient;
                    enabler := NewAtomicLevelAt defaultLevel;
                    levels := [];
                    async := defaultAsyncOpt;
                    queue := defaultQueueOpt;
                    intervalQueue := 0%Z;
                    entriesChan := None |} in
        (* apply options *)
        r <- applyOptions opts c ;;
        match r with
        | (_, Some err) => ret (None, Some err)
        | (c, None) => ret (Some c, None)
        end
    end.

(** [func (c *TelegramCore) Enabled(l zapcore.Level) bool] *)
Definition TelegramCore_Enabled (c : TelegramCore) (l : Level) : bool :=
  Enabled (enabler c) l.

#[global] Instance TelegramCore_LevelEnabler : LevelEnabler TelegramCore :=
  {| Enabled := TelegramCore_Enabled |}.

(** [*zapcore.CheckedEntry], [None] the nil pointer: the entry and the
    cores that agreed to log it. *)
Record CheckedEntry := {
  ce_Entry : Entry;
  ce_cores : list TelegramCore
}.

(** [func (ce *CheckedEntry) AddCore(ent Entry, core Core) *CheckedEntry] *)
Definition AddCore (ce : option CheckedEntry) (ent : Entry) (core : TelegramCore)
  : option CheckedEntry :=
  match ce with
  | None => Some {| ce_Entry := ent; ce_cores := [core] |}
  | Some ce => Some {| ce_Entry := ent; ce_cores := ce_cores ce ++ [core] |}
  end.

Definition Check (c : TelegramCore) (entry : Entry) (checked : option CheckedEntry)
  : option CheckedEntry :=
  if Enabled c (Entry_Level entry) then AddCore checked entry c
  else checked.

(** The first statement of [Write],
    [entryFields := append(fields, c.inheritedFields...)]:
    fields passed for the current entry log entry + inherited fields *)
Definition Write_entryFields (c : TelegramCore) (fields : Slice) : M Slice :=
  inherited <- load (inheritedFields c) ;;
  append fields inherited.

Definition Write (c : TelegramCore) (entry : Entry) (fields : Slice) : M (option error) :=
  entryFields <- Write_entryFields c fields ;;
  if async c then
    go (GoSendMessage (tgClient c) entry entryFields) ;;;
    ret None
  else if queue c then
    chan_send (entriesChan c) {| entry := entry; fields := entryFields |} ;;;
    ret None
  else
    (* if async or queue option is not set, send message immediately synchronously (blocking) *)
    err <- sendMessage (tgClient c) entry entryFields ;;
    match err with
    | Some err => ret (Some err)
    | None => ret None
    end.

(** [With]: [fields] holds the elements of the argument when it is called. *)
Definition With (c : TelegramCore) (fields : list Field) : M TelegramCore :=
  let cloned := c in
  s <- append (inheritedFields cloned) fields ;;
  ret (set_inheritedFields s cloned).

(** The [for len(h.entriesChan) > 0] of [handleNewQueueEntries], run at
    most [fuel] times. *)
Fixpoint handleNewQueueEntries_loop (fuel : nat) (h : TelegramCore) : M unit := fun w =>
  if 0 <? chan_len (entriesChan h) w then
    match fuel with
    | 0 => OutOfFuel
    | S fuel' =>
        (chanEntry <- chan_recv (entriesChan h) ;;
         sendMessage (tgClient h) (entry chanEntry) (fields chanEntry) ;;;
         handleNewQueueEntries_loop fuel' h) w
    end
  else Ret tt w.

(** handleNewQueueEntries send all new message entries in queue to telegram.
    The loop gets as many rounds as the queue holds entries when the call
    starts ([handleNewQueueEntries_returns] shows they suffice). *)
Definition handleNewQueueEntries (h : TelegramCore) : M unit := fun w =>
  handleNewQueueEntries_loop (chan_len (entriesChan h) w) h w.

Definition Sync (c : TelegramCore) : M (option error) :=
  if queue c then
    handleNewQueueEntries c ;;;
    ret None
  else ret None.

(** Which case of the [select] of [consumeEntriesQueue] fires. *)
Inductive SelectCase : Type :=
| TickerC    (* case <-ticker.C *)
| CtxDone.   (* case <-ctx.Done() *)

(** Where [consumeEntriesQueue] stands: waiting in its [select], or
    returned. *)
Inductive LoopState : Type :=
| Selecting
| Returned (err : error).

(** The [for { select { ... } }] of [consumeEntriesQueue], along the cases
    that fire. *)
Fixpoint consumeEntriesQueue_loop (h : TelegramCore) (ctx : Context) (cases : list SelectCase)
  : M LoopState :=
  match cases with
  | [] => ret Selecting
  | TickerC :: rest =>
      handleNewQueueEntries h ;;;
      consumeEntriesQueue_loop h ctx rest
  | CtxDone :: _ =>
      handleNewQueueEntries h ;;;
      ret (Returned (ctx_Err ctx))
  end.

(** consumeEntriesQueue sends all the entries (messages) in the queue to
    telegram at the given interval. [time.NewTicker] panics on an interval
    that is not positive. *)
Definition consumeEntriesQueue (h : TelegramCore) (ctx : Context) (cases : list SelectCase)
  : M LoopState :=
  if (intervalQueue h <=? 0)%Z then panic "non-positive interval for NewTicker"
  else consumeEntriesQueue_loop h ctx cases.

(** The scan of [getLevelThreshold] over what is left of [AllLevels]:
    [all] is [AllLevels[i:]]. *)
Fixpoint getLevelThreshold_from (all : list Level) (l : Level) : list Level :=
  match all with
  | [] => []
  | x :: rest => if (x =? l)%Z then x :: rest else getLevelThreshold_from rest l
  end.

(** getLevelThreshold returns all levels equal and above the given level *)
Definition getLevelThreshold (l : Level) : list Level :=
  getLevelThreshold_from AllLevels l.

(* ====================================================================== *)
(** * The options *)
(* ====================================================================== *)

(** WithLevel sends messages equal or above specified level *)
Definition WithLevel (l : Level) : Option := fun h =>
  let levels := getLevelThreshold l in
  ret (set_levels levels h, None).

(** WithStrongLevel sends only messages with specified level *)
Definition WithStrongLevel (l : Level) : Option := fun h =>
  ret (set_levels [l] h, None).

Definition set_disableNotification (b : bool) (c : telegramClient) : telegramClient :=
  {| botAPI := botAPI c; chatIDs := chatIDs c; disableNotification := b;
     enableNotificationOnLevels := enableNotificationOnLevels c;
     parseMode := parseMode c; formatter := formatter c |}.

Definition set_enableNotificationOnLevels (l : list Level) (c : telegramClient)
  : telegramClient :=
  {| botAPI := botAPI c; chatIDs := chatIDs c;
     disableNotification := disableNotification c;
     enableNotificationOnLevels := l;
     parseMode := parseMode c; formatter := formatter c |}.

Definition set_parseMode (p : option string) (c : telegramClient) : telegramClient :=
  {| botAPI := botAPI c; chatIDs := chatIDs c;
     disableNotification := disableNotification c;
     enableNotificationOnLevels := enableNotificationOnLevels c;
     parseMode := p; formatter := formatter c |}.

Definition set_formatter (f : option (Entry -> list Field -> string)) (c : telegramClient)
  : telegramClient :=
  {| botAPI := botAPI c; chatIDs := chatIDs c;
     disableNotification := disableNotification c;
     enableNotificationOnLevels := enableNotificationOnLevels c;
     parseMode := parseMode c; formatter := f |}.

(** WithDisabledNotification disables Telegram message notification *)
Definition WithDisabledNotification : Option := fun h =>
  ret (set_tgClient (set_disableNotification true (tgClient h)) h, None).

(** WithNotificationOn enables Telegram message notification on specified levels *)
Definition WithNotificationOn (levels : list Level) : Option := fun h =>
  let h := set_tgClient (set_disableNotification true (tgClient h)) h in
  let h := set_tgClient (set_enableNotificationOnLevels levels (tgClient h)) h in
  ret (h, None).

(** WithParseMode sets parse mode for Telegram messages *)
Definition WithParseMode (parseMode : string) : Option := fun h =>
  ret (set_tgClient (set_parseMode (Some parseMode) (tgClient h)) h, None).

(** WithFormatter sets a custom Telegram message formatter *)
Definition WithFormatter (f : Entry -> list Field -> string) : Option := fun h =>
  ret (set_tgClient (set_formatter (Some f) (tgClient h)) h, None).

(** WithoutAsyncOpt disables default asynchronous mode and enables
    synchronous mode for messages sending (blocking) *)
Definition WithoutAsyncOpt : Option := fun h =>
  if queue h then ret (h, Some ErrAsyncOpt)
  else ret (set_async false h, None).

(** WithQueue sends the messages to Telegram in batches (burst) at the
    specified interval. The goroutine reads the core through the pointer
    the option was given; the task records the core as the option leaves it. *)
Definition WithQueue (ctx : Context) (interval : Z) (queueSize : Z) : Option := fun h =>
  let h := set_async false h in
  let h := set_queue true h in
  let h := set_intervalQueue interval h in
  ch <- make_chan queueSize ;;
  let h := set_entriesChan ch h in
  go (GoConsumeEntriesQueue h ctx) ;;;
  ret (h, None).

(** The options the package exports. *)
Inductive public_option : Option -> Prop :=
| po_WithLevel l : public_option (WithLevel l)
| po_WithStrongLevel l : public_option (WithStrongLevel l)
| po_WithDisabledNotification : public_option WithDisabledNotification
| po_WithNotificationOn levels : public_option (WithNotificationOn levels)
| po_WithParseMode p : public_option (WithParseMode p)
| po_WithFormatter f : public_option (WithFormatter f)
| po_WithoutAsyncOpt : public_option WithoutAsyncOpt
| po_WithQueue ctx interval queueSize : public_option (WithQueue ctx interval queueSize).

(* ====================================================================== *)
(** * Using the package: the frontend, rows of calls, sample surroundings *)
(* ====================================================================== *)

(** What zap's [Logger] does with one entry and one core: [Check] from a
    nil checked entry, and, when a checked entry comes back, a [Write] on
    each core it lists. *)
Fixpoint CheckedEntry_Write (cores : list TelegramCore) (ent : Entry) (fields : Slice)
  : M unit :=
  match cores with
  | [] => ret tt
  | core :: rest =>
      Write core ent fields ;;;
      CheckedEntry_Write rest ent fields
  end.

Definition Logger_log (core : TelegramCore) (ent : Entry) (fields : Slice) : M unit :=
  match Check core ent None with
  | Some ce => CheckedEntry_Write (ce_cores ce) (ce_Entry ce) fields
  | None => ret tt
  end.

(** [Write] called once for each entry of a list, in order. *)
Fixpoint Write_each (c : TelegramCore) (es : list (Entry * Slice)) : M (list (option error)) :=
  match es with
  | [] => ret []
  | (e, fs) :: rest =>
      r <- Write c e fs ;;
      rs <- Write_each c rest ;;
      ret (r :: rs)
  end.

(** [sendMessage] called once for each queued entry, in order. *)
Fixpoint sendMessage_each (c : telegramClient) (q : list chanEntry) : M unit :=
  match q with
  | [] => ret tt
  | x :: rest =>
      sendMessage c (entry x) (fields x) ;;;
      sendMessage_each c rest
  end.

(** Producers at work: the entries callers of [Write] put in the queue at
    some moment, in order, as far as the queue has room (a send to a full
    queue waits, and so do the sends behind it). *)
Fixpoint produce (ch : option nat) (xs : list chanEntry) (w : World) : World :=
  match xs with
  | [] => w
  | x :: rest =>
      match chan_send ch x w with
      | Ret _ w' => produce ch rest w'
      | _ => w
      end
  end.

(** [handleNewQueueEntries] with producers at work. [sched] gives, for
    each round of the loop, the entries queued before the test of
    [len(h.entriesChan)] and those queued between the test and the
    receive; once the schedule is over no producer is at work. *)
Fixpoint handleNewQueueEntries_among (sched : list (list chanEntry * list chanEntry))
  (h : TelegramCore) : M unit := fun w =>
  match sched with
  | [] => handleNewQueueEntries h w
  | (before, between) :: rest =>
      let w1 := produce (entriesChan h) before w in
      if 0 <? chan_len (entriesChan h) w1 then
        (chanEntry <- chan_recv (entriesChan h) ;;
         sendMessage (tgClient h) (entry chanEntry) (fields chanEntry) ;;;
         handleNewQueueEntries_among rest h) (produce (entriesChan h) between w1)
      else Ret tt w1
  end.

(** The world a call leaves, when it returns. *)
Definition world_after {A} (m : M A) (w : World) : World :=
  match m w with
  | Ret _ w' => w'
  | _ => w
  end.

(** What a goroutine does once it runs: the body of the function its [go]
    statement started, the result dropped. The drain loop runs along the
    cases of its [select] that fire. *)
Definition runTask (t : Task) (cases : list SelectCase) : M unit :=
  match t with
  | GoSendMessage c e entryFields =>
      sendMessage c e entryFields ;;;
      ret tt
  | GoConsumeEntriesQueue h ctx =>
      consumeEntriesQueue h ctx cases ;;;
      ret tt
  end.

(** Two worlds with the same surroundings. *)
Definition same_surroundings (w w' : World) : Prop :=
  telegram w' = telegram w /\ getMe w' = getMe w /\ growslice w' = growslice w.

(** The level is one of the list, as the loop of [sendMessage] over
    [enableNotificationOnLevels] finds out. *)
Definition level_in (l : Level) (ls : list Level) : bool :=
  existsb (fun x => (x =? l)%Z) ls.

(** The place of a level in [AllLevels], the order
    debug < info < warn < error < fatal < panic. *)
Fixpoint index_of (l : Level) (ls : list Level) : option nat :=
  match ls with
  | [] => None
  | x :: rest =>
      if (x =? l)%Z then Some 0
      else match index_of l rest with
           | Some i => Some (S i)
           | None => None
           end
  end.

(** Options that leave the notification settings of [WithNotificationOn]
    alone: all the exported ones but [WithNotificationOn] itself. *)
Inductive keeps_notification_levels : Option -> Prop :=
| kn_WithLevel l : keeps_notification_levels (WithLevel l)
| kn_WithStrongLevel l : keeps_notification_levels (WithStrongLevel l)
| kn_WithDisabledNotification : keeps_notification_levels WithDisabledNotification
| kn_WithParseMode p : keeps_notification_levels (WithParseMode p)
| kn_WithFormatter f : keeps_notification_levels (WithFormatter f)
| kn_WithoutAsyncOpt : keeps_notification_levels WithoutAsyncOpt
| kn_WithQueue ctx interval queueSize :
    keeps_notification_levels (WithQueue ctx interval queueSize).

(** Sample surroundings. Telegram accepts every message, or refuses the
    messages for one chat; the token check passes; a slice that grows
    gets as much spare room as it had capacity, and room for two at least. *)
Definition telegram_accepts : list MessageConfig -> MessageConfig -> option error :=
  fun _ _ => None.

Definition telegram_refuses (chat : Z) : list MessageConfig -> MessageConfig -> option error :=
  fun _ msg =>
    if (ChatID msg =? chat)%Z then Some (ErrLibrary "Forbidden: bot was kicked from the chat")
    else None.

Definition start (tg : list MessageConfig -> MessageConfig -> option error) : World :=
  {| heap := []; chans := []; goroutines := []; sendCalls := []; stdlog := [];
     telegram := tg;
     getMe := fun _ => None;
     growslice := fun cap _ => Nat.max cap 2 |}.

Definition sample_entry (l : Level) (msg : string) : Entry :=
  {| Entry_Level := l; Entry_Time := "2007-01-01 11:25:59 +0000 UTC";
     Entry_LoggerName := EmptyString; Entry_Message := msg; Entry_Stack := EmptyString |}.

Definition sample_field (k v : string) : Field :=
  {| Key := k; Type_ := 15%Z; Integer := 0%Z; String_ := v |}.

Definition background : Context := {| ctx_Err := Canceled |}.

(** A core in synchronous mode for one chat, as [NewTelegramCore] with
    [WithoutAsyncOpt] builds it. *)
Definition sample_core : TelegramCore :=
  {| inheritedFields := emptySlice;
     tgClient := {| botAPI := {| Token := "token" |}; chatIDs := [1%Z];
                    disableNotification := defaultDisableNotification;
                    enableNotificationOnLevels := [];
                    parseMode := None; formatter := None |};
     enabler := NewAtomicLevelAt defaultLevel;
     levels := [];
     async := false;
     queue := defaultQueueOpt;
     intervalQueue := 0%Z;
     entriesChan := None |}.

(** An option that returns, whatever core and world it is applied to. *)
Definition option_returns (o : Option) : Prop :=
  forall c w, exists r w', o c w = Ret r w'.

(** An option that returns without an error, whatever core and world it
    is applied to. *)
Definition option_succeeds (o : Option) : Prop :=
  forall c w, exists c' w', o c w = Ret (c', None) w'.

(** A drain loop has been started. *)
Definition drain_started (w : World) : Prop :=
  exists h ctx, In (GoConsumeEntriesQueue h ctx) (goroutines w).

(** A world with two backing arrays: the caller's, holding one field
    with room for one more, and another holding one field; a slice on
    each; and the sample core inheriting the second. *)
Definition world_with_fields : World :=
  set_heap [[sample_field "user_id" "12345"; zeroField];
            [sample_field "app_name" "acme-api"]]
           (start telegram_accepts).

Definition caller_fields : Slice :=
  {| s_arr := 0; s_off := 0; s_len := 1; s_cap := 2 |}.

Definition core_with_fields : TelegramCore :=
  set_inheritedFields {| s_arr := 1; s_off := 0; s_len := 1; s_cap := 1 |} sample_core.

(** Where a goroutine stands in [handleNewQueueEntries]: before the test
    [len(h.entriesChan) > 0], before the receive [<-h.entriesChan], or
    back from the call. *)
Inductive DrainPoint : Type :=
| AtLenTest
| AtReceive
| DrainReturned.

(** One step of [handleNewQueueEntries] from a point: the test of the
    length, or the receive with the send that follows it. A receive
    from an empty queue parks the goroutine ([Blocked]). *)
Definition handleNewQueueEntries_step (h : TelegramCore) (p : DrainPoint) : M DrainPoint :=
  fun w =>
  match p with
  | AtLenTest =>
      if 0 <? chan_len (entriesChan h) w then Ret AtReceive w else Ret DrainReturned w
  | AtReceive =>
      (chanEntry <- chan_recv (entriesChan h) ;;
       sendMessage (tgClient h) (entry chanEntry) (fields chanEntry) ;;;
       ret AtLenTest) w
  | DrainReturned => Ret DrainReturned w
  end.

(** [n] steps in a row of one goroutine. *)
Fixpoint handleNewQueueEntries_steps (n : nat) (h : TelegramCore) (p : DrainPoint)
  : M DrainPoint :=
  match n with
  | 0 => ret p
  | S n' =>
      p' <- handleNewQueueEntries_step h p ;;
      handleNewQueueEntries_steps n' h p'
  end.

(** The two goroutines that run [handleNewQueueEntries] on the channel of
    a queued core: the drain loop, from a case of its [select], and a
    caller of [Sync]. *)
Inductive Receiver : Type :=
| DrainLoop
| SyncCaller.

(** The two of them, each stepping when the schedule names it: [h] is
    the core of the drain loop and [pl] its point, [c] the core [Sync]
    is called on and [ps] its point. *)
Fixpoint interleave (sched : list Receiver) (h c : TelegramCore) (pl ps : DrainPoint)
  : M (DrainPoint * DrainPoint) :=
  match sched with
  | [] => ret (pl, ps)
  | DrainLoop :: rest =>
      pl' <- handleNewQueueEntries_step h pl ;;
      interleave rest h c pl' ps
  | SyncCaller :: rest =>
      ps' <- handleNewQueueEntries_step c ps ;;
      interleave rest h c pl ps'
  end.

(** A world whose token check fails with [err]. *)
Definition with_getMe (f : string -> option error) (w : World) : World :=
  {| heap := heap w; chans := chans w; goroutines := goroutines w;
     sendCalls := sendCalls w; stdlog := stdlog w;
     telegram := telegram w; getMe := f; growslice := growslice w |}.

(** An option that leaves the parse mode of the client as it finds it. *)
Definition leaves_parseMode (o : Option) : Prop :=
  forall c w c' r w', o c w = Ret (c', r) w' ->
                      parseMode (tgClient c') = parseMode (tgClient c).

(** An option that leaves the formatter of the client as it finds it. *)
Definition leaves_formatter (o : Option) : Prop :=
  forall c w c' r w', o c w = Ret (c', r) w' ->
                      formatter (tgClient c') = formatter (tgClient c).

(** The messages [sendMessage] builds for an entry, one for each of the
    chats [ids], the fields being [fs]. *)
Definition messages_for (c : telegramClient) (e : Entry) (fs : list Field) (ids : list Z)
  : list MessageConfig :=
  map (fun id => chatMessage c id e fs) ids.

(** [msg.ParseMode] as [sendMessage] leaves it: the parse mode of the
    client, or the empty string [tgbotapi.NewMessage] starts from. *)
Definition parseMode_or_empty (c : telegramClient) : string :=
  match parseMode c with
  | Some p => p
  | None => EmptyString
  end.

(* ====================================================================== *)
(** * Properties *)
(* ====================================================================== *)

(** ** Running code in the monad *)

Unset Implicit Arguments.

Lemma bind_Ret {A B} (m : M A) (k : A -> M B) w b w' :
  bind m k w = Ret b w' ->
  exists a w1, m w = Ret a w1 /\ k a w1 = Ret b w'.
Proof.
  unfold bind. destruct (m w) as [a w1| | |]; try discriminate.
  intros H. exists a, w1. auto.
Qed.

(** ** Levels and the level list *)



Lemma index_of_In all l : In l all -> exists i, index_of l all = Some i.
Proof.
  induction all as [|x rest IH]; simpl; [intros []|].
  destruct (Z.eqb_spec x l) as [->|Hne]; [eauto|].
  intros [H|H]; [congruence|].
  destruct (IH H) as [i ->]. eauto.
Qed.

(** ** What the exported options touch *)

Lemma public_option_inv o c w c' r w' :
  public_option o -> o c w = Ret (c', r) w' ->
  enabler c' = enabler c /\
  inheritedFields c' = inheritedFields c /\
  chatIDs (tgClient c') = chatIDs (tgClient c) /\
  heap w' = heap w /\ sendCalls w' = sendCalls w /\ same_surroundings w w' /\
  (queue c = true -> queue c' = true) /\
  (r = None \/ r = Some ErrAsyncOpt /\ queue c = true).
Proof.
  unfold same_surroundings.
  destruct 1; cbv [WithLevel WithStrongLevel WithDisabledNotification WithNotificationOn
                   WithParseMode WithFormatter WithoutAsyncOpt WithQueue ret bind make_chan go].
  1-6: intros [= <- <- <-]; simpl; intuition auto.
  - destruct (queue c) eqn:Hq; intros [= <- <- <-]; simpl; intuition (try congruence).
  - destruct (queueSize <? 0)%Z; [discriminate|].
    intros [= <- <- <-]; simpl; intuition auto.
Qed.

Lemma applyOptions_inv opts : forall c w c' r w',
  Forall public_option opts -> applyOptions opts c w = Ret (c', r) w' ->
  enabler c' = enabler c /\
  inheritedFields c' = inheritedFields c /\
  chatIDs (tgClient c') = chatIDs (tgClient c) /\
  heap w' = heap w /\ sendCalls w' = sendCalls w /\ same_surroundings w w' /\
  (queue c = true -> queue c' = true) /\
  (r = None \/ r = Some ErrAsyncOpt).
Proof.
  unfold same_surroundings.
  induction opts as [|o rest IH]; simpl; intros c w c' r w' Hpub H.
  - inversion H; subst. intuition auto.
  - inversion Hpub as [|? ? Ho Hrest]; subst.
    apply bind_Ret in H as ([c1 r1] & w1 & H1 & H2).
    destruct (public_option_inv _ _ _ _ _ _ Ho H1)
      as (E1 & E2 & E3 & E4 & E5 & (E6 & E7 & E8) & E9 & E10).
    destruct r1 as [err|].
    + inversion H2; subst. intuition (try congruence).
    + destruct (IH _ _ _ _ _ Hrest H2)
        as (F1 & F2 & F3 & F4 & F5 & (F6 & F7 & F8) & F9 & F10).
      intuition congruence.
Qed.

(** A core comes out of [NewTelegramCore] as the options left the core
    the constructor starts from. *)
Lemma NewTelegramCore_Ret tok ids opts w c w' :
  NewTelegramCore tok ids opts w = Ret (Some c, None) w' ->
  tok <> EmptyString /\ ids <> [] /\
  exists bot,
    applyOptions opts
      {| inheritedFields := emptySlice;
         tgClient := {| botAPI := bot; chatIDs := ids;
                        disableNotification := defaultDisableNotification;
                        enableNotificationOnLevels := [];
                        parseMode := None; formatter := None |};
         enabler := NewAtomicLevelAt defaultLevel;
         levels := [];
         async := defaultAsyncOpt;
         queue := defaultQueueOpt;
         intervalQueue := 0%Z;
         entriesChan := None |} w = Ret (c, None) w'.
Proof.
  unfold NewTelegramCore.
  destruct (String.eqb_spec tok EmptyString) as [->|Htok]; [discriminate|].
  destruct ids as [|i ids]; [discriminate|].
  change (length (i :: ids) =? 0) with false. cbv iota.
  unfold newTelegramClient, NewBotAPI, bind, ret.
  destruct (getMe w tok); [discriminate|].
  match goal with |- context [applyOptions opts ?c0 w] =>
    destruct (applyOptions opts c0 w) as [[c1 [err|]] w1| | |] eqn:Happ end;
    try discriminate.
  intros [= <- <-]. split; [assumption|]. split; [discriminate|].
  eexists. exact Happ.
Qed.

(** Whatever exported options are given, the constructed core enables the
    levels from [defaultLevel] up. *)
Lemma Enabled_after_NewTelegramCore tok ids opts w c w' :
  Forall public_option opts ->
  NewTelegramCore tok ids opts w = Ret (Some c, None) w' ->
  forall l, Enabled c l = (WarnLevel <=? l)%Z.
Proof.
  intros Hpub H l. apply NewTelegramCore_Ret in H as (_ & _ & bot & H).
  apply applyOptions_inv in H as (E & _); [|assumption].
  simpl. unfold TelegramCore_Enabled. rewrite E. reflexivity.
Qed.

(** [sendMessage] leaves its loop at the first chat Telegram refuses: the
    chats after it get no call. *)
Lemma sendMessage_range_refused c id rest e fs w err :
  telegram w (sendCalls w) (chatMessage c id e (view fs w)) = Some err ->
  sendMessage_range c (id :: rest) e fs w =
  Ret (Some (ErrSendChat id err))
      (set_stdlog (stdlog w ++ [ErrSendChat id err])
         (set_sendCalls (sendCalls w ++ [chatMessage c id e (view fs w)]) w)).
Proof.
  intros H. simpl. unfold bind, load, botAPI_Send, log_Println, ret.
  rewrite H. reflexivity.
Qed.

(** C1 (the code departs from the claim). When Telegram refuses the
    message for a chat, [sendMessage] logs and returns the failure of
    that chat from inside its loop: of the chats after it none gets a
    call. So for a core in synchronous mode with the chats 1 and 2,
    Telegram refusing the messages for chat 1 only, [Write] returns the
    failure for chat 1 and the only call made on the Telegram API is the
    one for chat 1. *)
Theorem sync_Write_stops_at_first_failure :
  (forall c id rest e fs w err,
      telegram w (sendCalls w) (chatMessage c id e (view fs w)) = Some err ->
      exists w',
        sendMessage_range c (id :: rest) e fs w = Ret (Some (ErrSendChat id err)) w' /\
        sendCalls w' = sendCalls w ++ [chatMessage c id e (view fs w)]) /\
  (exists c w,
      NewTelegramCore "token" [1%Z; 2%Z] [WithoutAsyncOpt] (start (telegram_refuses 1))
        = Ret (Some c, None) w /\
      async c = false /\ queue c = false /\ chatIDs (tgClient c) = [1%Z; 2%Z] /\
      telegram w [] (chatMessage (tgClient c) 2%Z (sample_entry ErrorLevel "boom") []) = None /\
      exists w',
        Write c (sample_entry ErrorLevel "boom") emptySlice w
          = Ret (Some (ErrSendChat 1%Z (ErrLibrary "Forbidden: bot was kicked from the chat"))) w' /\
        map ChatID (sendCalls w') = [1%Z]).
Proof.
  split.
  - intros c id rest e fs w err H. eexists. split.
    + apply sendMessage_range_refused. exact H.
    + reflexivity.
  - eexists. eexists. split; [vm_compute; reflexivity|].
    repeat (split; [reflexivity|]).
    eexists. split; vm_compute; reflexivity.
Qed.

(** C2 (the code departs from the claim). [WithLevel F] stores the levels
    from [F] up in [levels], and [Enabled] never reads them: it answers
    from the enabler, set to [defaultLevel] by the constructor and
    written by no option. Whatever exported options come with
    [WithLevel F], [Enabled] holds of the levels from [WarnLevel] up. With
    the floor [InfoLevel], [InfoLevel] is in the stored list and is not
    enabled. *)
Theorem Enabled_ignores_WithLevel :
  (forall tok ids pre F post w c w',
      Forall public_option pre -> Forall public_option post ->
      NewTelegramCore tok ids (pre ++ WithLevel F :: post) w = Ret (Some c, None) w' ->
      forall L, Enabled c L = (WarnLevel <=? L)%Z) /\
  (exists c w,
      NewTelegramCore "token" [1%Z] [WithLevel InfoLevel] (start telegram_accepts)
        = Ret (Some c, None) w /\
      levels c = [InfoLevel; WarnLevel; ErrorLevel; FatalLevel; PanicLevel] /\
      levels c = getLevelThreshold InfoLevel /\
      Enabled c InfoLevel = false).
Proof.
  split.
  - intros tok ids pre F post w c w' Hpre Hpost H.
    apply (Enabled_after_NewTelegramCore tok ids (pre ++ WithLevel F :: post) w c w');
      [|exact H].
    apply Forall_app. split; [exact Hpre|]. constructor; [constructor | exact Hpost].
  - eexists. eexists. split; [vm_compute; reflexivity|]. repeat split; reflexivity.
Qed.

(** C9 (the code departs from the claim). [WithStrongLevel E] replaces the
    list [WithLevel] stored by the one level [E], and [Enabled] never
    reads it: whatever exported options come with [WithStrongLevel E],
    [Enabled] holds of the levels from [WarnLevel] up. After
    [WithLevel InfoLevel] and [WithStrongLevel ErrorLevel] the stored
    list is [ErrorLevel] alone, and [Enabled] holds of [WarnLevel] and
    [FatalLevel]. *)
Theorem Enabled_ignores_WithStrongLevel :
  (forall tok ids pre E post w c w',
      Forall public_option pre -> Forall public_option post ->
      NewTelegramCore tok ids (pre ++ WithStrongLevel E :: post) w = Ret (Some c, None) w' ->
      forall L, Enabled c L = (WarnLevel <=? L)%Z) /\
  (exists c w,
      NewTelegramCore "token" [1%Z] [WithLevel InfoLevel; WithStrongLevel ErrorLevel]
        (start telegram_accepts) = Ret (Some c, None) w /\
      levels c = [ErrorLevel] /\
      Enabled c FatalLevel = true /\ Enabled c WarnLevel = true).
Proof.
  split.
  - intros tok ids pre E post w c w' Hpre Hpost H.
    apply (Enabled_after_NewTelegramCore tok ids (pre ++ WithStrongLevel E :: post) w c w');
      [|exact H].
    apply Forall_app. split; [exact Hpre|]. constructor; [constructor | exact Hpost].
  - eexists. eexists. split; [vm_compute; reflexivity|]. repeat split; reflexivity.
Qed.




(** ** [Check] and [Write] *)

(** C7, as stated, fails: [DebugLevel] is not enabled on a core built with
    the default level, and [Write] delivers an entry of that level all the
    same: in synchronous mode the message goes to the chat, in queued mode
    the entry is put in the queue, in asynchronous mode a goroutine is
    started that sends the message when it runs. *)
Lemma Write_delivers_a_level_not_enabled :
  (exists c w,
      NewTelegramCore "token" [1%Z] [WithoutAsyncOpt] (start telegram_accepts)
        = Ret (Some c, None) w /\
      Enabled c DebugLevel = false /\ sendCalls w = [] /\
      exists w', Write c (sample_entry DebugLevel "noise") emptySlice w = Ret None w' /\
                 map ChatID (sendCalls w') = [1%Z]) /\
  (exists c w,
      NewTelegramCore "token" [1%Z] [WithQueue background 10 2] (start telegram_accepts)
        = Ret (Some c, None) w /\
      Enabled c DebugLevel = false /\ chan_len (entriesChan c) w = 0 /\
      exists w', Write c (sample_entry DebugLevel "noise") emptySlice w = Ret None w' /\
                 chan_len (entriesChan c) w' = 1) /\
  (exists c w,
      NewTelegramCore "token" [1%Z] [] (start telegram_accepts)
        = Ret (Some c, None) w /\
      Enabled c DebugLevel = false /\ goroutines w = [] /\
      exists w' t w'',
        Write c (sample_entry DebugLevel "noise") emptySlice w = Ret None w' /\
        goroutines w' = [t] /\
        runTask t [] w' = Ret tt w'' /\
        map ChatID (sendCalls w'') = [1%Z]).
Proof.
  split; [|split].
  - eexists; eexists; (split; [vm_compute; reflexivity|]);
      (split; [reflexivity|]); (split; [reflexivity|]);
      eexists; split; vm_compute; reflexivity.
  - eexists; eexists; (split; [vm_compute; reflexivity|]);
      (split; [reflexivity|]); (split; [reflexivity|]);
      eexists; split; vm_compute; reflexivity.
  - eexists; eexists; (split; [vm_compute; reflexivity|]);
      (split; [reflexivity|]); (split; [reflexivity|]).
    eexists. eexists. eexists.
    split; [vm_compute; reflexivity|].
    split; [reflexivity|].
    split; vm_compute; reflexivity.
Qed.

(** [Write] does not look at the enabler. *)
Lemma Write_set_enabler a c ent fields w :
  Write (set_enabler a c) ent fields w = Write c ent fields w.
Proof. reflexivity. Qed.

(** ** What [sendMessage] does to the world *)

Lemma enableNotificationOn_spec ls l msg :
  DisableNotification (enableNotificationOn ls l msg) =
  if level_in l ls then false else DisableNotification msg.
Proof.
  induction ls as [|x rest IH]; simpl; [reflexivity|].
  rewrite (Z.eqb_sym x l). destruct (l =? x)%Z; simpl; auto.
Qed.

Lemma level_in_In l ls : level_in l ls = true <-> In l ls.
Proof.
  unfold level_in. rewrite existsb_exists. split.
  - intros (x & Hx & E). apply Z.eqb_eq in E. subst x. exact Hx.
  - intros H. exists l. split; [assumption | apply Z.eqb_refl].
Qed.

(** With notification disabled on the client, a message notifies exactly
    when the level of the entry is one of [enableNotificationOnLevels]. *)
Lemma chatMessage_DisableNotification c id e fs :
  disableNotification c = true ->
  DisableNotification (chatMessage c id e fs) =
  negb (level_in (Entry_Level e) (enableNotificationOnLevels c)).
Proof.
  intros Hd. unfold chatMessage.
  assert (E : forall m p, DisableNotification (set_ParseMode p m) = DisableNotification m)
    by reflexivity.
  assert (K : DisableNotification
                (if 0 <? length (enableNotificationOnLevels c)
                 then enableNotificationOn (enableNotificationOnLevels c) (Entry_Level e)
                        (set_DisableNotification (disableNotification c)
                           (NewMessage id (formatMessage c e fs)))
                 else set_DisableNotification (disableNotification c)
                        (NewMessage id (formatMessage c e fs)))
              = negb (level_in (Entry_Level e) (enableNotificationOnLevels c))).
  { destruct (enableNotificationOnLevels c) as [|x rest] eqn:Hl.
    - simpl. assumption.
    - change (0 <? length (x :: rest)) with true. cbv iota.
      rewrite enableNotificationOn_spec.
      destruct (level_in (Entry_Level e) (x :: rest)); simpl; auto. }
  destruct (parseMode c); [rewrite E|]; exact K.
Qed.

(** [sendMessage] always returns. It calls the Telegram API for the chats
    of a first part [done] of the list, in order, and touches nothing
    else but the log; without an error the first part is the whole list,
    and an error is the failure of the last chat called. *)
Lemma sendMessage_range_spec c e fs : forall ids w,
  exists r w' done rest,
    sendMessage_range c ids e fs w = Ret r w' /\
    ids = done ++ rest /\
    sendCalls w' = sendCalls w ++ map (fun id => chatMessage c id e (view fs w)) done /\
    heap w' = heap w /\ chans w' = chans w /\ goroutines w' = goroutines w /\
    same_surroundings w w' /\
    (ids <> [] -> done <> []) /\
    (r = None -> rest = []) /\
    (forall err, r = Some err ->
       exists id cause, err = ErrSendChat id cause /\ last done id = id /\ done <> []).
Proof.
  unfold same_surroundings.
  induction ids as [|id ids IH]; intros w.
  - exists None, w, [], []. simpl. unfold ret.
    rewrite app_nil_r. repeat split; auto; try congruence; discriminate.
  - simpl. unfold bind at 1. unfold load at 1. unfold bind at 1. unfold botAPI_Send at 1.
    destruct (telegram w (sendCalls w) (chatMessage c id e (view fs w))) as [err|] eqn:Ht.
    + exists (Some (ErrSendChat id err)).
      eexists. exists [id], ids. split; [reflexivity|]. simpl.
      repeat split; auto; try discriminate.
      intros err' [= <-]. exists id, err. repeat split; auto; discriminate.
    + destruct (IH (set_sendCalls (sendCalls w ++ [chatMessage c id e (view fs w)]) w))
        as (r & w' & done & rest & H & Hids & Hs & Hh & Hc & Hg & (S1 & S2 & S3) & Hne & Hn & He).
      exists r, w', (id :: done), rest. split; [exact H|].
      simpl in Hs, Hh, Hc, Hg, S1, S2, S3.
      split; [simpl; congruence|].
      split; [rewrite Hs, <- app_assoc; reflexivity|].
      repeat split; auto; try discriminate.
      intros err Hr. destruct (He err Hr) as (i & cause & -> & Hl & Hd).
      exists i, cause. repeat split; try discriminate.
      destruct done; [contradiction|]. exact Hl.
Qed.

Lemma sendMessage_spec c e fs w :
  exists r w' done rest,
    sendMessage c e fs w = Ret r w' /\
    chatIDs c = done ++ rest /\
    sendCalls w' = sendCalls w ++ map (fun id => chatMessage c id e (view fs w)) done /\
    heap w' = heap w /\ chans w' = chans w /\ goroutines w' = goroutines w /\
    same_surroundings w w' /\
    (chatIDs c <> [] -> done <> []) /\
    (r = None -> rest = []) /\
    (forall err, r = Some err ->
       exists id cause, err = ErrSendChat id cause /\ last done id = id /\ done <> []).
Proof. apply sendMessage_range_spec. Qed.

(** ** Construction *)

Lemma applyOptions_app xs ys c w :
  applyOptions (xs ++ ys) c w =
  match applyOptions xs c w with
  | Ret (c', None) w' => applyOptions ys c' w'
  | other => other
  end.
Proof.
  revert c w. induction xs as [|o xs IH]; intros c w; simpl; [reflexivity|].
  unfold bind. destruct (o c w) as [[c1 [err|]] w1| | |]; try reflexivity.
  apply IH.
Qed.

Lemma applyOptions_returns opts : forall c w,
  Forall option_returns opts -> exists c' r w', applyOptions opts c w = Ret (c', r) w'.
Proof.
  induction opts as [|o rest IH]; intros c w Hr; simpl.
  - exists c, None, w. reflexivity.
  - inversion Hr as [|? ? Ho Hrest]; subst.
    destruct (Ho c w) as ([c1 r1] & w1 & H1). unfold bind. rewrite H1.
    destruct r1 as [err|].
    + exists c1, (Some err), w1. reflexivity.
    + apply IH. assumption.
Qed.

(** [WithoutAsyncOpt] after [WithQueue]: the options stop at an error,
    and the error is [ErrAsyncOpt]. *)
Lemma applyOptions_queue_then_sync pre ctx interval size mid post c w :
  Forall public_option pre -> Forall option_returns pre ->
  (0 <= size)%Z ->
  Forall public_option mid -> Forall option_returns mid ->
  exists c' w',
    applyOptions (pre ++ WithQueue ctx interval size :: mid ++ WithoutAsyncOpt :: post) c w
    = Ret (c', Some ErrAsyncOpt) w'.
Proof.
  intros Ppre Rpre Hsize Pmid Rmid.
  rewrite applyOptions_app.
  destruct (applyOptions_returns pre c w Rpre) as (c1 & r1 & w1 & H1). rewrite H1.
  destruct (applyOptions_inv pre c w c1 r1 w1 Ppre H1) as (_ & _ & _ & _ & _ & _ & _ & Hr1).
  destruct Hr1 as [-> | ->]; [|eauto].
  change (WithQueue ctx interval size :: mid ++ WithoutAsyncOpt :: post)
    with ([WithQueue ctx interval size] ++ (mid ++ WithoutAsyncOpt :: post)).
  rewrite applyOptions_app. simpl. unfold bind, WithQueue at 1, make_chan, bind.
  destruct (Z.ltb_spec size 0) as [Hneg|_]; [lia|].
  unfold go, ret. 
  rewrite applyOptions_app.
  match goal with |- context [applyOptions mid ?c2 ?w2] =>
    destruct (applyOptions_returns mid c2 w2 Rmid) as (c3 & r3 & w3 & H3);
    rewrite H3;
    destruct (applyOptions_inv mid c2 w2 c3 r3 w3 Pmid H3)
      as (_ & _ & _ & _ & _ & _ & Hq & Hr3)
  end.
  destruct Hr3 as [-> | ->]; [|eauto].
  simpl in Hq. specialize (Hq eq_refl).
  simpl. unfold bind, WithoutAsyncOpt at 1. rewrite Hq. unfold ret. eauto.
Qed.

(** C6, as stated, fails: with asynchronous mode on, as it is by default,
    [WithQueue] builds a core in queued mode; and [WithoutAsyncOpt]
    followed by [WithQueue] builds one too. *)
Lemma NewTelegramCore_with_both_mode_options :
  (exists c w,
      NewTelegramCore "token" [1%Z] [WithQueue background 10 2] (start telegram_accepts)
        = Ret (Some c, None) w /\ queue c = true /\ defaultAsyncOpt = true) /\
  (exists c w,
      NewTelegramCore "token" [1%Z] [WithoutAsyncOpt; WithQueue background 10 2]
        (start telegram_accepts)
        = Ret (Some c, None) w /\ queue c = true).
Proof.
  split; eexists; eexists; (split; [vm_compute; reflexivity|]); repeat split; reflexivity.
Qed.

Lemma NewTelegramCore_error_no_core tok ids opts w r err w' :
  NewTelegramCore tok ids opts w = Ret (r, Some err) w' -> r = None.
Proof.
  unfold NewTelegramCore.
  destruct (String.eqb tok EmptyString); [unfold ret; congruence|].
  destruct (length ids =? 0); [unfold ret; congruence|].
  unfold bind, newTelegramClient, NewBotAPI, bind, ret.
  destruct (getMe w tok); [congruence|].
  match goal with |- context [applyOptions opts ?c0 w] =>
    destruct (applyOptions opts c0 w) as [[c1 [e|]] w1| | |] end; congruence.
Qed.

Lemma Write_error c ent fs w err w' :
  Write c ent fs w = Ret (Some err) w' -> exists id cause, err = ErrSendChat id cause.
Proof.
  unfold Write. intros H. apply bind_Ret in H as (s & w1 & _ & H).
  destruct (async c).
  { apply bind_Ret in H as (? & ? & _ & H). discriminate. }
  destruct (queue c).
  { apply bind_Ret in H as (? & ? & _ & H). discriminate. }
  apply bind_Ret in H as (r & w2 & Hs & H).
  destruct (sendMessage_spec (tgClient c) ent s w1)
    as (r' & w2' & done & rest & Hs' & _ & _ & _ & _ & _ & _ & _ & _ & He).
  rewrite Hs in Hs'. inversion Hs'; subst r' w2'.
  destruct r as [e|]; [|discriminate]. inversion H; subst.
  destruct (He err eq_refl) as (id & cause & -> & _). eauto.
Qed.

(** C6, amended: construction fails with [ErrBotAccessToken] on the empty
    token, with [ErrChatIDs] on an empty list of chats, and with
    [ErrAsyncOpt] when [WithoutAsyncOpt] is applied after [WithQueue] has
    selected queued mode; whenever [NewTelegramCore] returns an error it
    returns no core with it. None of the three is an error of a later
    call: an error of [Write] is the failure of a send, and [Sync]
    returns no error. *)
Theorem NewTelegramCore_configuration_errors tok ids w :
  (forall opts, NewTelegramCore EmptyString ids opts w = Ret (None, Some ErrBotAccessToken) w) /\
  (tok <> EmptyString ->
   forall opts, NewTelegramCore tok [] opts w = Ret (None, Some ErrChatIDs) w) /\
  (tok <> EmptyString -> ids <> [] -> getMe w tok = None ->
   forall pre ctx interval size mid post,
     Forall public_option pre -> Forall option_returns pre ->
     (0 <= size)%Z ->
     Forall public_option mid -> Forall option_returns mid ->
     exists w',
       NewTelegramCore tok ids
         (pre ++ WithQueue ctx interval size :: mid ++ WithoutAsyncOpt :: post) w
       = Ret (None, Some ErrAsyncOpt) w') /\
  (forall opts r err w',
     NewTelegramCore tok ids opts w = Ret (r, Some err) w' -> r = None) /\
  (forall c ent fs w0 err w1,
     Write c ent fs w0 = Ret (Some err) w1 -> exists id cause, err = ErrSendChat id cause) /\
  (forall c w0 r w1, Sync c w0 = Ret r w1 -> r = None).
Proof.
  split; [reflexivity|]. split; [|split; [|split; [|split]]].
  - intros Htok opts. unfold NewTelegramCore.
    destruct (String.eqb_spec tok EmptyString); [contradiction|]. reflexivity.
  - intros Htok Hids Hget pre ctx interval size mid post Ppre Rpre Hsize Pmid Rmid.
    unfold NewTelegramCore.
    destruct (String.eqb_spec tok EmptyString); [contradiction|].
    destruct ids as [|i ids]; [contradiction|].
    change (length (i :: ids) =? 0) with false. cbv iota.
    unfold bind at 1. unfold newTelegramClient, bind, NewBotAPI. rewrite Hget.
    unfold ret.
    match goal with |- context [applyOptions _ ?c0 w] =>
      destruct (applyOptions_queue_then_sync pre ctx interval size mid post c0 w
                  Ppre Rpre Hsize Pmid Rmid) as (c' & w' & H) end.
    rewrite H. eauto.
  - intros opts r err w'. apply NewTelegramCore_error_no_core.
  - intros c ent fs w0 err w1. apply Write_error.
  - intros c w0 r w1. unfold Sync. destruct (queue c).
    + intros H. apply bind_Ret in H as (? & ? & _ & H). inversion H. reflexivity.
    + intros H. inversion H. reflexivity.
Qed.

Lemma NewTelegramCore_configuration_errors_witness :
  NewTelegramCore EmptyString [1%Z] [WithLevel InfoLevel] (start telegram_accepts)
    = Ret (None, Some ErrBotAccessToken) (start telegram_accepts) /\
  NewTelegramCore "token" [] [WithLevel InfoLevel] (start telegram_accepts)
    = Ret (None, Some ErrChatIDs) (start telegram_accepts) /\
  exists w',
    NewTelegramCore "token" [1%Z]
      ([WithLevel InfoLevel] ++ WithQueue background 10 2
         :: [WithParseMode "MarkdownV2"] ++ WithoutAsyncOpt :: [])
      (start telegram_accepts)
    = Ret (None, Some ErrAsyncOpt) w'.
Proof.
  destruct (NewTelegramCore_configuration_errors "token" [1%Z] (start telegram_accepts))
    as (A & B & C & _).
  split; [apply A|]. split; [apply B; discriminate|].
  apply C; try discriminate; try reflexivity; try lia.
  - repeat constructor.
  - repeat constructor. intros c w. eexists. eexists. reflexivity.
  - repeat constructor.
  - repeat constructor. intros c w. eexists. eexists. reflexivity.
Defined.

(** ** Notification *)

Lemma keeps_notification_levels_inv o c w c' r w' :
  keeps_notification_levels o -> o c w = Ret (c', r) w' ->
  disableNotification (tgClient c) = true ->
  disableNotification (tgClient c') = true /\
  enableNotificationOnLevels (tgClient c') = enableNotificationOnLevels (tgClient c).
Proof.
  destruct 1; cbv [WithLevel WithStrongLevel WithDisabledNotification
                   WithParseMode WithFormatter WithoutAsyncOpt WithQueue ret bind make_chan go].
  1-5: intros [= <- <- <-]; simpl; auto.
  - destruct (queue c); intros [= <- <- <-]; simpl; auto.
  - destruct (queueSize <? 0)%Z; [discriminate|].
    intros [= <- <- <-]; simpl; auto.
Qed.

Lemma applyOptions_keeps_notification_levels opts : forall c w c' r w',
  Forall keeps_notification_levels opts -> applyOptions opts c w = Ret (c', r) w' ->
  disableNotification (tgClient c) = true ->
  disableNotification (tgClient c') = true /\
  enableNotificationOnLevels (tgClient c') = enableNotificationOnLevels (tgClient c).
Proof.
  induction opts as [|o rest IH]; simpl; intros c w c' r w' Hk H Hd.
  - inversion H; subst. auto.
  - inversion Hk as [|? ? Ho Hrest]; subst.
    apply bind_Ret in H as ([c1 r1] & w1 & H1 & H2).
    destruct (keeps_notification_levels_inv _ _ _ _ _ _ Ho H1 Hd) as (D1 & L1).
    destruct r1 as [err|].
    + inversion H2; subst. auto.
    + destruct (IH _ _ _ _ _ Hrest H2 D1) as (D2 & L2). split; congruence.
Qed.

(** The core [NewTelegramCore] returns when the last [WithNotificationOn]
    among its options is [WithNotificationOn U]. *)
Lemma NewTelegramCore_WithNotificationOn tok ids pre U post w c w1 :
  NewTelegramCore tok ids (pre ++ WithNotificationOn U :: post) w = Ret (Some c, None) w1 ->
  Forall keeps_notification_levels post ->
  disableNotification (tgClient c) = true /\
  enableNotificationOnLevels (tgClient c) = U.
Proof.
  intros H Hpost. apply NewTelegramCore_Ret in H as (_ & _ & bot & H).
  rewrite applyOptions_app in H.
  match type of H with context [applyOptions pre ?c0 w] =>
    destruct (applyOptions pre c0 w) as [[c1 [err|]] w2| | |]; try discriminate end.
  simpl in H. unfold bind, WithNotificationOn at 1, ret in H.
  match type of H with applyOptions post ?c2 w2 = _ =>
    destruct (applyOptions_keeps_notification_levels post c2 w2 c None w1 Hpost H eq_refl)
      as (D & L) end.
  split; [exact D | exact L].
Qed.

(** C4: on a core built with [WithNotificationOn U] as its last option on
    notification levels, every message [sendMessage] hands to the Telegram
    API for an entry notifies exactly when the level of the entry is in
    [U]; with [U] empty none does. [sendMessage] returns and, the core
    having a chat, makes a call at least. *)
Theorem WithNotificationOn_decides_notification tok ids pre U post w c w1 :
  NewTelegramCore tok ids (pre ++ WithNotificationOn U :: post) w = Ret (Some c, None) w1 ->
  Forall public_option pre ->
  Forall keeps_notification_levels post ->
  forall e fs w2,
  exists r w3 msgs,
    sendMessage (tgClient c) e fs w2 = Ret r w3 /\
    sendCalls w3 = sendCalls w2 ++ msgs /\ msgs <> [] /\
    Forall (fun m => DisableNotification m = false <-> In (Entry_Level e) U) msgs /\
    (U = [] -> Forall (fun m => DisableNotification m = true) msgs).
Proof.
  intros H Hpre Hpost e fs w2.
  destruct (NewTelegramCore_WithNotificationOn _ _ _ _ _ _ _ _ H Hpost) as (D & L).
  assert (Hids : chatIDs (tgClient c) <> []).
  { pose proof H as H'. apply NewTelegramCore_Ret in H' as (_ & Hne & bot & H').
    rewrite applyOptions_app in H'.
    match type of H' with context [applyOptions pre ?c0 w] =>
      destruct (applyOptions pre c0 w) as [[c1 [err|]] w2'| | |] eqn:Hp; try discriminate end.
    apply applyOptions_inv in Hp as (_ & _ & E1 & _); [|assumption].
    simpl in H'. unfold bind, WithNotificationOn at 1, ret in H'.
    assert (Pk : Forall public_option post).
    { clear -Hpost. induction Hpost as [|o l Ho _ IH]; constructor; [|exact IH].
      destruct Ho; constructor. }
    apply applyOptions_inv in H' as (_ & _ & E2 & _); [|assumption].
    simpl in E1, E2. congruence. }
  destruct (sendMessage_spec (tgClient c) e fs w2)
    as (r & w3 & done & rest & Hs & _ & Hc & _ & _ & _ & _ & Hd & _).
  exists r, w3, (map (fun id => chatMessage (tgClient c) id e (view fs w2)) done).
  split; [exact Hs|]. split; [exact Hc|]. split.
  { specialize (Hd Hids). destruct done; [contradiction|discriminate]. }
  assert (K : forall id,
             DisableNotification (chatMessage (tgClient c) id e (view fs w2))
             = negb (level_in (Entry_Level e) U)).
  { intros id. rewrite chatMessage_DisableNotification by exact D. rewrite L. reflexivity. }
  split.
  - apply Forall_forall. intros m Hm. apply in_map_iff in Hm as (id & <- & _).
    rewrite K, <- level_in_In.
    destruct (level_in (Entry_Level e) U); simpl; split; congruence.
  - intros ->. apply Forall_forall. intros m Hm. apply in_map_iff in Hm as (id & <- & _).
    rewrite K. reflexivity.
Qed.

Lemma WithNotificationOn_decides_notification_witness :
  exists c w1,
    NewTelegramCore "token" [1%Z; 2%Z]
      ([WithLevel InfoLevel] ++ WithNotificationOn [ErrorLevel; PanicLevel; FatalLevel]
         :: [WithoutAsyncOpt; WithParseMode "MarkdownV2"])
      (start telegram_accepts) = Ret (Some c, None) w1 /\
    exists r w3 msgs,
      sendMessage (tgClient c) (sample_entry WarnLevel "take a look") emptySlice w1
        = Ret r w3 /\
      sendCalls w3 = sendCalls w1 ++ msgs /\ msgs <> [] /\
      Forall (fun m => DisableNotification m = false <->
                       In (Entry_Level (sample_entry WarnLevel "take a look"))
                          [ErrorLevel; PanicLevel; FatalLevel]) msgs.
Proof.
  eexists. eexists. split; [vm_compute; reflexivity|].
  match goal with |- exists r w3 msgs, sendMessage (tgClient ?c) ?ent ?s ?w2 = _ /\ _ =>
    assert (Hc : NewTelegramCore "token" [1%Z; 2%Z]
                   ([WithLevel InfoLevel] ++ WithNotificationOn [ErrorLevel; PanicLevel; FatalLevel]
                      :: [WithoutAsyncOpt; WithParseMode "MarkdownV2"])
                   (start telegram_accepts) = Ret (Some c, None) w2)
      by (vm_compute; reflexivity);
    assert (Hpre : Forall public_option [WithLevel InfoLevel]) by (repeat constructor);
    assert (Hpost : Forall keeps_notification_levels [WithoutAsyncOpt; WithParseMode "MarkdownV2"])
      by (repeat constructor);
    destruct (WithNotificationOn_decides_notification _ _ _ _ _ _ _ _ Hc Hpre Hpost ent s w2)
      as (r & w3 & msgs & H1 & H2 & H3 & H4 & _)
  end.
  exists r, w3, msgs. auto.
Defined.

(** ** Lists updated in place *)

Section Update.
Context {A : Type}.
Implicit Types (i j : nat) (x y d : A) (l : list A).

Lemma length_update i x l : length (update i x l) = length l.
Proof.
  revert i. induction l as [|h t IH]; intros [|i]; simpl; auto.
Qed.

Lemma nth_error_update_eq i x y l :
  nth_error l i = Some y -> nth_error (update i x l) i = Some x.
Proof.
  revert i. induction l as [|h t IH]; intros [|i]; simpl; try discriminate; auto.
Qed.

Lemma update_update i x y l :
  update i x (update i y l) = update i x l.
Proof.
  revert i. induction l as [|h t IH]; intros [|i]; simpl; auto.
  rewrite IH. reflexivity.
Qed.

Lemma nth_update_eq i x d l :
  i < length l -> nth i (update i x l) d = x.
Proof.
  revert i. induction l as [|h t IH]; intros [|i]; simpl; intros H; try lia; auto.
  apply IH. lia.
Qed.

Lemma nth_update_neq i j x d l :
  i <> j -> nth j (update i x l) d = nth j l d.
Proof.
  revert i j. induction l as [|h t IH]; intros [|i] [|j]; simpl; intros H;
    try reflexivity; try congruence.
  apply IH. congruence.
Qed.

Lemma update_out_of_range i x l :
  length l <= i -> update i x l = l.
Proof.
  revert i. induction l as [|h t IH]; intros [|i]; simpl; intros H; try lia; auto.
  rewrite IH by lia. reflexivity.
Qed.

End Update.

(** ** The queue *)

(** Sending does not look at the channels. *)
Lemma sendMessage_range_set_chans c e fs cs : forall ids w,
  sendMessage_range c ids e fs (set_chans cs w) =
  match sendMessage_range c ids e fs w with
  | Ret r w' => Ret r (set_chans cs w')
  | other => other
  end.
Proof.
  induction ids as [|id ids IH]; intros w; simpl; [reflexivity|].
  unfold bind, load, botAPI_Send.
  change (view fs (set_chans cs w)) with (view fs w).
  change (telegram (set_chans cs w)) with (telegram w).
  change (sendCalls (set_chans cs w)) with (sendCalls w).
  destruct (telegram w (sendCalls w) (chatMessage c id e (view fs w))) as [err|].
  - reflexivity.
  - apply (IH (set_sendCalls (sendCalls w ++ [chatMessage c id e (view fs w)]) w)).
Qed.

Lemma sendMessage_each_spec c : forall q w,
  exists w',
    sendMessage_each c q w = Ret tt w' /\
    heap w' = heap w /\ chans w' = chans w /\ goroutines w' = goroutines w /\
    same_surroundings w w' /\
    exists msgs, sendCalls w' = sendCalls w ++ msgs.
Proof.
  unfold same_surroundings.
  induction q as [|x q IH]; intros w; simpl.
  - exists w. unfold ret. repeat split; auto. exists []. now rewrite app_nil_r.
  - destruct (sendMessage_spec c (entry x) (fields x) w)
      as (r & w1 & done & rest & Hs & _ & Hc & Hh & Hch & Hg & (S1 & S2 & S3) & _).
    unfold bind. rewrite Hs.
    destruct (IH w1) as (w2 & H2 & Hh2 & Hch2 & Hg2 & (T1 & T2 & T3) & msgs & Hm).
    exists w2. split; [exact H2|].
    repeat split; try congruence.
    eexists. rewrite Hm, Hc, <- app_assoc. reflexivity.
Qed.

(** One drain: the entries the queue holds when it starts are taken out
    and sent, each once, in the order they were queued; the loop never
    waits on the channel and has rounds enough. *)
Lemma handleNewQueueEntries_loop_spec h i cap : forall buf fuel w,
  entriesChan h = Some i ->
  nth_error (chans w) i = Some {| ch_cap := cap; ch_buf := buf |} ->
  length buf <= fuel ->
  handleNewQueueEntries_loop fuel h w =
  sendMessage_each (tgClient h) buf
    (set_chans (update i {| ch_cap := cap; ch_buf := [] |} (chans w)) w).
Proof.
  induction buf as [|x rest IH]; intros fuel w Hch Hnth Hfuel.
  - assert (E : update i {| ch_cap := cap; ch_buf := [] |} (chans w) = chans w).
    { clear -Hnth. revert i Hnth. induction (chans w) as [|c l IHl]; intros [|i]; simpl;
        try discriminate; intros H; [congruence | f_equal; auto]. }
    rewrite E. destruct fuel; simpl; unfold chan_len; rewrite Hch, Hnth; simpl;
      destruct w; reflexivity.
  - destruct fuel as [|fuel]; [simpl in Hfuel; lia|].
    simpl. unfold chan_len. rewrite Hch, Hnth. simpl.
    unfold bind at 1. unfold chan_recv. rewrite Hnth. simpl.
    unfold bind, sendMessage.
    rewrite !sendMessage_range_set_chans.
    destruct (sendMessage_spec (tgClient h) (entry x) (fields x) w)
      as (r & w1 & done & rst & Hs & _ & _ & _ & Hc1 & _).
    unfold sendMessage in Hs. rewrite Hs.
    rewrite (IH fuel); [| exact Hch | | simpl in Hfuel; lia].
    + simpl. rewrite update_update. reflexivity.
    + simpl. eapply nth_error_update_eq. exact Hnth.
Qed.

(** [handleNewQueueEntries] returns, with the queue empty, whatever the
    core and the world. *)
Lemma handleNewQueueEntries_returns h w :
  exists w',
    handleNewQueueEntries h w = Ret tt w' /\
    chan_len (entriesChan h) w' = 0 /\
    heap w' = heap w /\ goroutines w' = goroutines w /\ same_surroundings w w' /\
    exists msgs, sendCalls w' = sendCalls w ++ msgs.
Proof.
  unfold handleNewQueueEntries.
  assert (Idle : chan_len (entriesChan h) w = 0 ->
                 handleNewQueueEntries_loop (chan_len (entriesChan h) w) h w = Ret tt w).
  { intros E. rewrite E. simpl. rewrite E. reflexivity. }
  assert (Done : chan_len (entriesChan h) w = 0 ->
     exists w', handleNewQueueEntries_loop (chan_len (entriesChan h) w) h w = Ret tt w' /\
       chan_len (entriesChan h) w' = 0 /\
       heap w' = heap w /\ goroutines w' = goroutines w /\ same_surroundings w w' /\
       exists msgs, sendCalls w' = sendCalls w ++ msgs).
  { intros E. exists w. rewrite (Idle E). unfold same_surroundings.
    repeat split; auto. exists []. now rewrite app_nil_r. }
  destruct (entriesChan h) as [i|] eqn:Hch; [|apply Done; reflexivity].
  destruct (nth_error (chans w) i) as [[cap buf]|] eqn:Hnth;
    [|apply Done; unfold chan_len; rewrite Hnth; reflexivity].
  assert (El : chan_len (Some i) w = length buf).
  { unfold chan_len. rewrite Hnth. reflexivity. }
  rewrite El.
  rewrite (handleNewQueueEntries_loop_spec h i cap buf (length buf) w Hch Hnth (le_n _)).
  destruct (sendMessage_each_spec (tgClient h) buf
              (set_chans (update i {| ch_cap := cap; ch_buf := [] |} (chans w)) w))
    as (w' & H & Hh & Hc & Hg & Hs & msgs & Hm).
  exists w'. split; [exact H|]. simpl in Hh, Hc, Hg, Hm.
  split.
  { unfold chan_len. rewrite Hc.
    rewrite (nth_error_update_eq i {| ch_cap := cap; ch_buf := [] |} _ _ Hnth). reflexivity. }
  repeat split; try assumption; try apply Hs.
  exists msgs. exact Hm.
Qed.

(** The first statement of [Write] returns; it may write the heap and
    nothing else. *)
Lemma Write_entryFields_returns c fs w :
  exists s w1,
    Write_entryFields c fs w = Ret s w1 /\
    chans w1 = chans w /\ sendCalls w1 = sendCalls w /\ goroutines w1 = goroutines w /\
    same_surroundings w w1.
Proof.
  unfold Write_entryFields, bind, load, append, same_surroundings.
  destruct (s_len fs + length (view (inheritedFields c) w) <=? s_cap fs);
    eexists; eexists; (split; [reflexivity|]); simpl; repeat split.
Qed.

(** [Write] in queued mode, the queue having room: the entry goes behind
    the entries queued, and that is all. *)
Lemma Write_queued c e fs w i cap buf :
  async c = false -> queue c = true -> entriesChan c = Some i ->
  nth_error (chans w) i = Some {| ch_cap := cap; ch_buf := buf |} ->
  length buf < cap ->
  exists s w1,
    Write_entryFields c fs w = Ret s w1 /\
    Write c e fs w =
    Ret None (set_chans (update i {| ch_cap := cap;
                                     ch_buf := buf ++ [{| entry := e; fields := s |}] |}
                                (chans w1)) w1).
Proof.
  intros Ha Hq Hch Hnth Hroom.
  destruct (Write_entryFields_returns c fs w) as (s & w1 & H & Hc & _).
  exists s, w1. split; [exact H|].
  unfold Write, bind. rewrite H, Ha, Hq, Hch. unfold chan_send. rewrite Hc, Hnth. simpl.
  destruct (Nat.ltb_spec (length buf) cap); [reflexivity | lia].
Qed.

Lemma Write_each_queued c i cap : forall es buf w,
  async c = false -> queue c = true -> entriesChan c = Some i ->
  nth_error (chans w) i = Some {| ch_cap := cap; ch_buf := buf |} ->
  length buf + length es <= cap ->
  exists q w',
    Write_each c es w = Ret (map (fun _ => None) es) w' /\
    nth_error (chans w') i = Some {| ch_cap := cap; ch_buf := buf ++ q |} /\
    map entry q = map fst es /\
    sendCalls w' = sendCalls w /\ goroutines w' = goroutines w /\
    same_surroundings w w'.
Proof.
  unfold same_surroundings.
  induction es as [|[e fs] es IH]; intros buf w Ha Hq Hch Hnth Hroom.
  - exists [], w. simpl. unfold ret. rewrite app_nil_r. repeat split; auto.
  - simpl in Hroom.
    destruct (Write_queued c e fs w i cap buf Ha Hq Hch Hnth ltac:(lia))
      as (s & w1 & Hs & Hw).
    destruct (Write_entryFields_returns c fs w)
      as (s' & w1' & Hs' & Hc1 & Hsc1 & Hg1 & (S1 & S2 & S3)).
    rewrite Hs in Hs'. inversion Hs'; subst s' w1'. clear Hs'.
    simpl. unfold bind at 1. rewrite Hw.
    match goal with |- context [bind (Write_each c es) _ ?w2] =>
      destruct (IH (buf ++ [{| entry := e; fields := s |}]) w2 Ha Hq Hch)
        as (q & w' & He & Hn' & Hm & Hsc & Hg & (T1 & T2 & T3)) end.
    { simpl. eapply nth_error_update_eq. rewrite Hc1. exact Hnth. }
    { rewrite length_app. simpl. lia. }
    exists ({| entry := e; fields := s |} :: q), w'.
    unfold bind. rewrite He. unfold ret.
    split; [reflexivity|].
    split; [rewrite Hn', <- app_assoc; reflexivity|].
    split; [simpl; congruence|].
    simpl in Hsc, Hg, T1, T2, T3.
    repeat split; congruence.
Qed.

(** With Telegram accepting every message, [sendMessage] calls it once
    for each chat. *)
Lemma sendMessage_range_accepted c e fs : forall ids w,
  (forall hist m, telegram w hist m = None) ->
  sendMessage_range c ids e fs w =
  Ret None (set_sendCalls (sendCalls w ++ map (fun id => chatMessage c id e (view fs w)) ids) w).
Proof.
  induction ids as [|id ids IH]; intros w Hok; simpl.
  - unfold ret. rewrite app_nil_r. destruct w; reflexivity.
  - unfold bind, load, botAPI_Send. rewrite Hok.
    rewrite IH by exact Hok. simpl. rewrite <- app_assoc. reflexivity.
Qed.

Lemma sendMessage_each_accepted c : forall q w,
  (forall hist m, telegram w hist m = None) ->
  sendMessage_each c q w =
  Ret tt (set_sendCalls
            (sendCalls w ++
             flat_map (fun x => map (fun id => chatMessage c id (entry x) (view (fields x) w))
                                    (chatIDs c)) q) w).
Proof.
  induction q as [|x q IH]; intros w Hok; simpl.
  - unfold ret. rewrite app_nil_r. destruct w; reflexivity.
  - unfold bind, sendMessage. rewrite sendMessage_range_accepted by exact Hok.
    rewrite IH by exact Hok. simpl. rewrite <- app_assoc. reflexivity.
Qed.



(** ** The drain loop *)

Lemma world_after_handleNewQueueEntries h w :
  handleNewQueueEntries h w = Ret tt (world_after (handleNewQueueEntries h) w).
Proof.
  destruct (handleNewQueueEntries_returns h w) as (w' & H & _).
  unfold world_after. rewrite H. reflexivity.
Qed.

Lemma iter_shift {A} (f : A -> A) n x : Nat.iter n f (f x) = f (Nat.iter n f x).
Proof. induction n as [|n IH]; simpl; [reflexivity | now rewrite IH]. Qed.

(** After [n] ticks the loop has drained [n] times and waits in its
    [select]. *)
Lemma consumeEntriesQueue_loop_ticks h ctx : forall n cases w,
  consumeEntriesQueue_loop h ctx (repeat TickerC n ++ cases) w =
  consumeEntriesQueue_loop h ctx cases
    (Nat.iter n (world_after (handleNewQueueEntries h)) w).
Proof.
  induction n as [|n IH]; intros cases w; simpl; [reflexivity|].
  unfold bind. rewrite world_after_handleNewQueueEntries.
  rewrite IH, iter_shift. reflexivity.
Qed.

(** A send that goes through makes the queue one longer. *)
Lemma chan_send_len ch x w w' :
  chan_send ch x w = Ret tt w' -> chan_len ch w' = S (chan_len ch w).
Proof.
  unfold chan_send, chan_len. destruct ch as [i|]; [|discriminate].
  destruct (nth_error (chans w) i) as [c|] eqn:Hnth; [|discriminate].
  destruct (length (ch_buf c) <? ch_cap c); [|discriminate].
  intros [= <-]. simpl.
  rewrite (nth_error_update_eq i _ c (chans w) Hnth). simpl.
  rewrite length_app. simpl. lia.
Qed.

(** Producers only make the queue longer. *)
Lemma produce_chan_len ch xs : forall w,
  chan_len ch w <= chan_len ch (produce ch xs w).
Proof.
  induction xs as [|x rest IH]; intros w; simpl; [lia|].
  destruct (chan_send ch x w) as [[] w'| | |] eqn:Hs; try lia.
  apply chan_send_len in Hs. specialize (IH w'). lia.
Qed.

(** A receive from a queue that holds an entry returns. *)
Lemma chan_recv_returns ch w :
  0 < chan_len ch w -> exists x w', chan_recv ch w = Ret x w'.
Proof.
  unfold chan_len, chan_recv. destruct ch as [i|]; [|lia].
  destruct (nth_error (chans w) i) as [c|]; [|lia].
  destruct (ch_buf c) as [|x rest]; simpl; [lia|]. eauto.
Qed.

(** With producers at work a drain still returns: what the test of [len]
    saw is still there when the receive comes. *)
Lemma handleNewQueueEntries_among_returns h : forall sched w,
  exists w', handleNewQueueEntries_among sched h w = Ret tt w'.
Proof.
  induction sched as [|[before between] rest IH]; intros w; simpl.
  - destruct (handleNewQueueEntries_returns h w) as (w' & H & _). eauto.
  - destruct (Nat.ltb_spec 0 (chan_len (entriesChan h) (produce (entriesChan h) before w)))
      as [Hpos|_]; [|eauto].
    pose proof (produce_chan_len (entriesChan h) between
                  (produce (entriesChan h) before w)) as Hmono.
    destruct (chan_recv_returns (entriesChan h)
                (produce (entriesChan h) between (produce (entriesChan h) before w)))
      as (x & w1 & Hr); [lia|].
    unfold bind. rewrite Hr.
    destruct (sendMessage_spec (tgClient h) (entry x) (fields x) w1)
      as (r & w2 & done & rst & Hs & _).
    rewrite Hs. apply IH.
Qed.

(** The drain loop alone on its queue, for a core with a positive
    interval, cancelled after any number [n] of ticks. It has drained once for each tick;
    when the cancellation fires it drains once more and returns the
    error of the context, whatever would fire next. It leaves the queue
    empty. A drain always returns ([handleNewQueueEntries] is never
    parked on the channel): it takes out the entries the queue holds
    when it starts and sends each once; and with producers queueing
    entries while it runs it still returns, each receive finding the
    entry the test of the length saw. *)
Theorem consumeEntriesQueue_cancelled h ctx n rest w :
  (0 < intervalQueue h)%Z ->
  exists w',
    consumeEntriesQueue h ctx (repeat TickerC n ++ CtxDone :: rest) w
      = Ret (Returned (ctx_Err ctx)) w' /\
    w' = world_after (handleNewQueueEntries h)
           (Nat.iter n (world_after (handleNewQueueEntries h)) w) /\
    chan_len (entriesChan h) w' = 0 /\
    (forall w0, exists w1, handleNewQueueEntries h w0 = Ret tt w1) /\
    (forall sched w0, exists w1, handleNewQueueEntries_among sched h w0 = Ret tt w1) /\
    (forall i cap buf w0,
       entriesChan h = Some i ->
       nth_error (chans w0) i = Some {| ch_cap := cap; ch_buf := buf |} ->
       handleNewQueueEntries h w0 =
       sendMessage_each (tgClient h) buf
         (set_chans (update i {| ch_cap := cap; ch_buf := [] |} (chans w0)) w0)).
Proof.
  intros Hpos.
  exists (world_after (handleNewQueueEntries h)
            (Nat.iter n (world_after (handleNewQueueEntries h)) w)).
  split; [|split; [reflexivity|split; [|split; [|split]]]].
  - unfold consumeEntriesQueue.
    destruct (Z.leb_spec (intervalQueue h) 0) as [Hle|_]; [lia|].
    rewrite consumeEntriesQueue_loop_ticks. simpl. unfold bind.
    rewrite world_after_handleNewQueueEntries. reflexivity.
  - match goal with |- chan_len _ (world_after _ ?w0) = 0 =>
      destruct (handleNewQueueEntries_returns h w0) as (w' & H & Hl & _) end.
    unfold world_after at 1. rewrite H. exact Hl.
  - intros w0. destruct (handleNewQueueEntries_returns h w0) as (w1 & H & _). eauto.
  - intros sched w0. apply handleNewQueueEntries_among_returns.
  - intros i cap buf w0 Hch Hnth. unfold handleNewQueueEntries.
    apply handleNewQueueEntries_loop_spec; [assumption | assumption|].
    unfold chan_len. rewrite Hch, Hnth. simpl. lia.
Qed.

Lemma consumeEntriesQueue_cancelled_witness :
  exists c w,
    NewTelegramCore "token" [1%Z] [WithQueue background 10 2] (start telegram_accepts)
      = Ret (Some c, None) w /\
    exists w1 w',
      Write c (sample_entry ErrorLevel "boom") emptySlice w = Ret None w1 /\
      consumeEntriesQueue c background ([TickerC; TickerC] ++ [CtxDone; TickerC]) w1
        = Ret (Returned Canceled) w' /\
      chan_len (entriesChan c) w' = 0.
Proof.
  eexists. eexists. split; [vm_compute; reflexivity|].
  match goal with |- exists w1 w', Write ?c ?e ?fs ?w = _ /\ _ =>
    assert (Hw : exists w1, Write c e fs w = Ret None w1)
      by (eexists; vm_compute; reflexivity);
    destruct Hw as (w1 & Hw);
    destruct (consumeEntriesQueue_cancelled c background 2 [TickerC] w1 ltac:(simpl; lia))
      as (w' & H1 & _ & H2 & _)
  end.
  exists w1, w'. split; [exact Hw | split; [exact H1 | exact H2]].
Defined.

(** ** Slices and [append] *)

Section Windows.
Context {A : Type}.
Implicit Types (off len p n : nat) (xs a : list A).

Lemma window_app off len (l1 l2 : list A) :
  off + len <= length l1 ->
  firstn len (skipn off (l1 ++ l2)) = firstn len (skipn off l1).
Proof.
  intros H. rewrite skipn_app, firstn_app.
  replace (len - length (skipn off l1)) with 0 by (rewrite length_skipn; lia).
  simpl. apply app_nil_r.
Qed.

Lemma firstn_app_exact n (l1 l2 : list A) :
  length l1 = n -> firstn n (l1 ++ l2) = l1.
Proof.
  intros <-. rewrite firstn_app, Nat.sub_diag, firstn_all. simpl. apply app_nil_r.
Qed.

Lemma skipn_app_within off (l1 l2 : list A) :
  off <= length l1 -> skipn off (l1 ++ l2) = skipn off l1 ++ l2.
Proof.
  intros H. rewrite skipn_app. replace (off - length l1) with 0 by lia. reflexivity.
Qed.

(** Overwriting the elements of an array from place [p] on by [xs]
    leaves every window that ends at [p] or before as it was. *)
Lemma window_overwritten off len p xs a :
  off + len <= p -> p <= length a ->
  firstn len (skipn off (firstn p a ++ xs ++ skipn (p + length xs) a))
  = firstn len (skipn off a).
Proof.
  intros H1 H2.
  rewrite window_app by (rewrite length_firstn; lia).
  rewrite <- (firstn_skipn p a) at 2.
  rewrite window_app by (rewrite length_firstn; lia). reflexivity.
Qed.

(** The window of [len] elements before [p], grown by the elements
    written at [p]. *)
Lemma window_extended off len xs a :
  off + len <= length a ->
  firstn (len + length xs)
    (skipn off (firstn (off + len) a ++ xs ++ skipn (off + len + length xs) a))
  = firstn len (skipn off a) ++ xs.
Proof.
  intros H.
  rewrite skipn_app_within by (rewrite length_firstn; lia).
  rewrite skipn_firstn_comm. replace (off + len - off) with len by lia.
  rewrite app_assoc. apply firstn_app_exact.
  rewrite length_app, length_firstn, length_skipn. lia.
Qed.

Lemma length_overwritten p xs a :
  p + length xs <= length a ->
  length (firstn p a ++ xs ++ skipn (p + length xs) a) = length a.
Proof.
  intros H. rewrite !length_app, length_firstn, length_skipn. lia.
Qed.

End Windows.

Lemma length_view s w : wf_slice w s -> length (view s w) = s_len s.
Proof.
  intros [H1 H2]. unfold view. rewrite length_firstn, length_skipn. lia.
Qed.

(** [append] on a slice that fits its array: the slice returned shows the
    elements of the old one followed by the new; every slice that fits
    still fits; a slice keeps what it shows unless it shares the array
    and reaches beyond the last element of the slice appended to; the
    slice appended to does not reach beyond the one returned. *)
Lemma append_spec s xs w :
  wf_slice w s ->
  exists s' w',
    append s xs w = Ret s' w' /\
    view s' w' = view s w ++ xs /\
    wf_slice w' s' /\
    (forall t, wf_slice w t -> wf_slice w' t) /\
    (forall t, wf_slice w t ->
               (s_arr t = s_arr s -> s_off t + s_len t <= s_off s + s_len s) ->
               view t w' = view t w) /\
    (s_arr s = s_arr s' -> s_off s + s_len s <= s_off s' + s_len s') /\
    chans w' = chans w /\ sendCalls w' = sendCalls w /\ goroutines w' = goroutines w /\
    stdlog w' = stdlog w /\ same_surroundings w w'.
Proof.
  intros [Hlen Hfit]. unfold append, same_surroundings.
  destruct (Nat.leb_spec (s_len s + length xs) (s_cap s)) as [Hroom|Hgrow].
  - (* in place *)
    set (a := nth (s_arr s) (heap w) []) in *.
    set (p := s_off s + s_len s).
    set (a' := firstn p a ++ xs ++ skipn (p + length xs) a).
    assert (La : length a' = length a) by (apply length_overwritten; unfold p; lia).
    assert (Hnth : forall j, nth j (update (s_arr s) a' (heap w)) [] =
                             if Nat.eqb j (s_arr s) then
                               (if s_arr s <? length (heap w) then a' else a)
                             else nth j (heap w) []).
    { intros j. destruct (Nat.eqb_spec j (s_arr s)) as [->|Hne].
      - destruct (Nat.ltb_spec (s_arr s) (length (heap w))).
        + apply nth_update_eq. assumption.
        + rewrite update_out_of_range by assumption. reflexivity.
      - apply nth_update_neq. congruence. }
    assert (Ha'_small : length (heap w) <= s_arr s -> a' = a).
    { intros Hout. assert (E : a = []) by (apply nth_overflow; exact Hout).
      assert (Ex : xs = []).
      { rewrite E in Hfit. simpl in Hfit. destruct xs; [reflexivity | simpl in Hroom; lia]. }
      unfold a'. rewrite E, Ex. destruct p; reflexivity. }
    eexists. eexists. split; [reflexivity|]. simpl.
    split; [|split; [|split; [|split; [|split]]]].
    + unfold view. simpl. rewrite Hnth, Nat.eqb_refl.
      destruct (Nat.ltb_spec (s_arr s) (length (heap w))) as [Hin|Hout].
      * unfold a', p. apply window_extended. fold a. lia.
      * rewrite <- (Ha'_small Hout). unfold a', p. apply window_extended. fold a. lia.
    + unfold wf_slice. simpl. rewrite Hnth, Nat.eqb_refl.
      destruct (s_arr s <? length (heap w)); rewrite ?La; fold a; lia.
    + intros t [T1 T2]. unfold wf_slice. simpl. rewrite Hnth.
      destruct (Nat.eqb_spec (s_arr t) (s_arr s)) as [E|_]; [|auto].
      rewrite E in T2. fold a in T2.
      destruct (s_arr s <? length (heap w)); rewrite ?La; auto.
    + intros t [T1 T2] Hwin. unfold view. simpl. rewrite Hnth.
      destruct (Nat.eqb_spec (s_arr t) (s_arr s)) as [E|_]; [|reflexivity].
      rewrite E. fold a.
      destruct (s_arr s <? length (heap w)); [|reflexivity].
      unfold a'. apply window_overwritten; unfold p; [auto | lia].
    + intros _. lia.
    + repeat split.
  - (* a new array *)
    set (spare := growslice w (s_cap s) (s_len s + length xs)).
    set (a' := view s w ++ xs ++ repeat zeroField spare).
    assert (Lv : length (view s w) = s_len s) by (apply length_view; split; assumption).
    assert (Hold : forall j, j < length (heap w) ->
                             nth j (heap w ++ [a']) [] = nth j (heap w) []).
    { intros j Hj. apply app_nth1. exact Hj. }
    assert (Hnew : nth (length (heap w)) (heap w ++ [a']) [] = a').
    { rewrite app_nth2 by lia. rewrite Nat.sub_diag. reflexivity. }
    assert (Hdangling : forall t, wf_slice w t -> length (heap w) <= s_arr t ->
                                  s_off t = 0 /\ s_len t = 0 /\ s_cap t = 0).
    { intros t [T1 T2] Hout. rewrite nth_overflow in T2 by exact Hout. simpl in T2. lia. }
    eexists. eexists. split; [reflexivity|]. simpl.
    split; [|split; [|split; [|split; [|split]]]].
    + unfold view at 1. simpl. rewrite Hnew. unfold a'.
      rewrite app_assoc. apply firstn_app_exact. rewrite length_app. lia.
    + unfold wf_slice. simpl. rewrite Hnew. unfold a'.
      rewrite !length_app, repeat_length. fold spare. lia.
    + intros t Ht. destruct (Nat.lt_ge_cases (s_arr t) (length (heap w))) as [Hin|Hout].
      * destruct Ht as [T1 T2]. unfold wf_slice. simpl. rewrite Hold by exact Hin. auto.
      * destruct (Hdangling t Ht Hout) as (E1 & E2 & E3).
        unfold wf_slice. simpl. lia.
    + intros t Ht _. destruct (Nat.lt_ge_cases (s_arr t) (length (heap w))) as [Hin|Hout].
      * unfold view. simpl. rewrite Hold by exact Hin. reflexivity.
      * destruct (Hdangling t Ht Hout) as (E1 & E2 & E3).
        unfold view. rewrite E2. reflexivity.
    + intros E. destruct (Hdangling s (conj Hlen Hfit)) as (E1 & E2 & E3); [lia|]. lia.
    + repeat split.
Qed.

(** [With]: the derived core is the parent with the slice [append]
    returned; the parent shows the fields it showed. *)
Lemma With_spec c F w :
  wf_slice w (inheritedFields c) ->
  exists s w',
    With c F w = Ret (set_inheritedFields s c) w' /\
    view s w' = view (inheritedFields c) w ++ F /\
    wf_slice w' s /\
    (forall t, wf_slice w t -> wf_slice w' t) /\
    (forall t, wf_slice w t ->
               (s_arr t = s_arr (inheritedFields c) ->
                s_off t + s_len t <= s_off (inheritedFields c) + s_len (inheritedFields c)) ->
               view t w' = view t w) /\
    (s_arr (inheritedFields c) = s_arr s ->
     s_off (inheritedFields c) + s_len (inheritedFields c) <= s_off s + s_len s).
Proof.
  intros Hwf.
  destruct (append_spec (inheritedFields c) F w Hwf)
    as (s & w' & H & Hv & Hwf' & Hkeep & Hframe & Hin & _).
  exists s, w'. unfold With, bind. rewrite H. unfold ret.
  split; [reflexivity|]. repeat (split; [assumption|]). assumption.
Qed.

(** The fields [Write] resolves: those of the call, then the inherited. *)
Lemma Write_entryFields_spec c fs w :
  wf_slice w fs ->
  exists s w',
    Write_entryFields c fs w = Ret s w' /\
    view s w' = view fs w ++ view (inheritedFields c) w /\
    sendCalls w' = sendCalls w.
Proof.
  intros Hwf. unfold Write_entryFields, bind, load.
  destruct (append_spec fs (view (inheritedFields c) w) w Hwf)
    as (s & w' & H & Hv & _ & _ & _ & _ & _ & Hs & _).
  exists s, w'. split; [exact H|]. split; [exact Hv | exact Hs].
Qed.

(** C3: two derivations in a row, from a core whose inherited slice and
    whose caller's slice fit their arrays. The entry written through the
    second derived core gets the fields of the call, then the inherited
    fields of the first core, then [F1], then [F2]; for a core that
    inherits nothing, as [NewTelegramCore] returns it, the fields of the
    call, [F1], [F2]. Neither derivation changes the fields the first
    core shows, nor does the second change those of the first derived
    core. In synchronous mode the messages sent are built from that
    sequence. *)
Theorem With_With_resolves_fields h0 F1 F2 e fs w :
  wf_slice w (inheritedFields h0) ->
  wf_slice w fs ->
  exists h1 w1 h2 w2 s w3,
    With h0 F1 w = Ret h1 w1 /\
    With h1 F2 w1 = Ret h2 w2 /\
    Write_entryFields h2 fs w2 = Ret s w3 /\
    view s w3 = view fs w2 ++ view (inheritedFields h0) w ++ F1 ++ F2 /\
    (s_len (inheritedFields h0) = 0 -> view s w3 = view fs w2 ++ F1 ++ F2) /\
    view (inheritedFields h0) w1 = view (inheritedFields h0) w /\
    view (inheritedFields h0) w2 = view (inheritedFields h0) w /\
    view (inheritedFields h1) w1 = view (inheritedFields h0) w ++ F1 /\
    view (inheritedFields h1) w2 = view (inheritedFields h1) w1 /\
    (async h0 = false -> queue h0 = false ->
     exists r w4 done rest,
       Write h2 e fs w2 = Ret r w4 /\
       chatIDs (tgClient h0) = done ++ rest /\
       (chatIDs (tgClient h0) <> [] -> done <> []) /\
       sendCalls w4 =
       sendCalls w2 ++
       map (fun id => chatMessage (tgClient h0) id e
                        (view fs w2 ++ view (inheritedFields h0) w ++ F1 ++ F2)) done).
Proof.
  intros Hwf0 Hwfs.
  destruct (With_spec h0 F1 w Hwf0) as (s1 & w1 & H1 & V1 & Wf1 & Keep1 & Frame1 & In1).
  assert (Hwf0' : wf_slice w1 (inheritedFields h0)) by (apply Keep1; exact Hwf0).
  destruct (With_spec (set_inheritedFields s1 h0) F2 w1 Wf1)
    as (s2 & w2 & H2 & V2 & Wf2 & Keep2 & Frame2 & In2).
  simpl in V2, Frame2, In2.
  assert (Hwfs2 : wf_slice w2 fs) by (apply Keep2, Keep1; exact Hwfs).
  destruct (Write_entryFields_spec (set_inheritedFields s2 (set_inheritedFields s1 h0)) fs w2 Hwfs2)
    as (s & w3 & H3 & V3 & Sc3).
  simpl in V3.
  assert (P0 : view (inheritedFields h0) w1 = view (inheritedFields h0) w).
  { apply Frame1; [exact Hwf0 | lia]. }
  assert (P0' : view (inheritedFields h0) w2 = view (inheritedFields h0) w).
  { rewrite <- P0. apply Frame2; [exact Hwf0' | exact In1]. }
  assert (P1 : view s1 w2 = view s1 w1).
  { apply Frame2; [exact Wf1 | lia]. }
  assert (Vall : view s w3 = view fs w2 ++ view (inheritedFields h0) w ++ F1 ++ F2).
  { rewrite V3, V2, V1, <- app_assoc. reflexivity. }
  exists (set_inheritedFields s1 h0), w1, (set_inheritedFields s2 (set_inheritedFields s1 h0)),
         w2, s, w3.
  split; [exact H1|]. split; [exact H2|]. split; [exact H3|]. split; [exact Vall|].
  split.
  { intros Hz. rewrite Vall. unfold view at 2. rewrite Hz. reflexivity. }
  split; [exact P0|]. split; [exact P0'|]. split; [exact V1|]. split; [exact P1|].
  intros Ha Hq.
  destruct (sendMessage_spec (tgClient h0) e s w3)
    as (r & w4 & done & rest & Hs & Hids & Hc & _ & _ & _ & _ & Hne & _).
  exists r, w4, done, rest.
  split.
  { unfold Write, bind. rewrite H3. simpl. rewrite Ha, Hq.
    simpl in Hs. rewrite Hs. destruct r; reflexivity. }
  split; [exact Hids|]. split; [exact Hne|].
  rewrite Hc, Sc3, Vall. reflexivity.
Qed.

Lemma With_With_resolves_fields_witness :
  exists h1 w1 h2 w2 s w3,
    With sample_core [sample_field "app_name" "acme-api"] (start telegram_accepts)
      = Ret h1 w1 /\
    With h1 [sample_field "user_id" "12345"] w1 = Ret h2 w2 /\
    Write_entryFields h2 emptySlice w2 = Ret s w3 /\
    view s w3 = view emptySlice w2 ++
                [sample_field "app_name" "acme-api"] ++ [sample_field "user_id" "12345"] /\
    view (inheritedFields sample_core) w2 = [] /\
    s_arr (inheritedFields h2) = s_arr (inheritedFields h1).
Proof.
  assert (W0 : wf_slice (start telegram_accepts) (inheritedFields sample_core))
    by (split; simpl; lia).
  assert (W1 : wf_slice (start telegram_accepts) emptySlice) by (split; simpl; lia).
  destruct (With_With_resolves_fields sample_core
              [sample_field "app_name" "acme-api"] [sample_field "user_id" "12345"]
              (sample_entry ErrorLevel "boom") emptySlice (start telegram_accepts) W0 W1)
    as (h1 & w1 & h2 & w2 & s & w3 & H1 & H2 & H3 & _ & V & _ & P & _).
  exists h1, w1, h2, w2, s, w3.
  split; [exact H1|]. split; [exact H2|]. split; [exact H3|].
  split; [apply V; reflexivity|]. split; [exact P|].
  vm_compute in H1. inversion H1; subst h1 w1.
  vm_compute in H2. inversion H2; subst h2 w2.
  reflexivity.
Defined.

(** The model keeps the sharing of backing arrays: two cores derived from
    the same core, its slice having room left, get the same place of
    the same array, and the second derivation overwrites the field of
    the first. *)
Example With_twice_from_one_core_shares_the_array :
  exists h1 w1 h2 w2 h3 w3,
    With sample_core [sample_field "app_name" "acme-api"] (start telegram_accepts)
      = Ret h1 w1 /\
    With h1 [sample_field "user_id" "12345"] w1 = Ret h2 w2 /\
    With h1 [sample_field "order_id" "777"] w2 = Ret h3 w3 /\
    view (inheritedFields h2) w2
      = [sample_field "app_name" "acme-api"; sample_field "user_id" "12345"] /\
    view (inheritedFields h2) w3
      = [sample_field "app_name" "acme-api"; sample_field "order_id" "777"] /\
    view (inheritedFields h1) w3 = [sample_field "app_name" "acme-api"].
Proof.
  do 6 eexists.
  split; [vm_compute; reflexivity|].
  split; [vm_compute; reflexivity|].
  split; [vm_compute; reflexivity|].
  repeat split; vm_compute; reflexivity.
Qed.

(* ====================================================================== *)
(** * Further properties of the client, the core and the options *)
(* ====================================================================== *)

(** ** The level list *)

Lemma index_of_Some_In all l i : index_of l all = Some i -> In l all.
Proof.
  revert i. induction all as [|x rest IH]; simpl; intros i; [discriminate|].
  destruct (Z.eqb_spec x l) as [->|_]; [auto|].
  destruct (index_of l rest) as [j|]; [|discriminate].
  intros _. right. eapply IH. reflexivity.
Qed.

Lemma getLevelThreshold_from_incl all F L :
  In L (getLevelThreshold_from all F) -> In L all.
Proof.
  induction all as [|x rest IH]; simpl; [auto|].
  destruct (x =? F)%Z; [auto|]. intros H. right. apply IH. exact H.
Qed.

Lemma getLevelThreshold_from_order all F L :
  NoDup all ->
  (In L (getLevelThreshold_from all F) <->
   exists i j, index_of F all = Some i /\ index_of L all = Some j /\ i <= j).
Proof.
  induction all as [|x rest IH]; intros Hnd.
  - simpl. split; [intros [] | intros (i & j & H & _); discriminate].
  - inversion Hnd as [|? ? Hx Hrest]; subst. simpl getLevelThreshold_from.
    destruct (Z.eqb_spec x F) as [->|Hne].
    + split.
      * intros H. destruct (index_of_In (F :: rest) L H) as [j Hj].
        exists 0, j. simpl. rewrite Z.eqb_refl. repeat split; [exact Hj | lia].
      * intros (i & j & _ & Hj & _). eapply index_of_Some_In. exact Hj.
    + rewrite (IH Hrest). simpl.
      destruct (Z.eqb_spec x F) as [E|_]; [contradiction|].
      destruct (Z.eqb_spec x L) as [->|HneL].
      * split.
        -- intros (i & j & _ & Hj & _). exfalso. apply Hx.
           eapply index_of_Some_In. exact Hj.
        -- intros (i & j & Hi & [= <-] & Hle).
           destruct (index_of F rest); [|discriminate]. inversion Hi; subst. lia.
      * split.
        -- intros (i & j & Hi & Hj & Hle). exists (S i), (S j).
           rewrite Hi, Hj. repeat split. lia.
        -- intros (i & j & Hi & Hj & Hle).
           destruct (index_of F rest) as [i'|]; [|discriminate].
           destruct (index_of L rest) as [j'|]; [|discriminate].
           inversion Hi; inversion Hj; subst. exists i', j'. repeat split. lia.
Qed.

Lemma NoDup_AllLevels : NoDup AllLevels.
Proof.
  unfold AllLevels. repeat constructor; simpl; intuition discriminate.
Qed.

(** X1: a level is in the list [getLevelThreshold F] returns exactly when
    both [F] and the level are in [AllLevels] and the level stands at the
    place of [F] or after it. The order is that of [AllLevels], where
    [FatalLevel] comes before [PanicLevel], and not that of the numbers
    of the levels: with the floor [PanicLevel] the list leaves
    [FatalLevel] out, and with the floor [FatalLevel] it holds both. *)
Theorem getLevelThreshold_order :
  (forall F L,
      In L (getLevelThreshold F) <->
      exists i j, index_of F AllLevels = Some i /\ index_of L AllLevels = Some j /\ i <= j) /\
  ~ In FatalLevel (getLevelThreshold PanicLevel) /\
  In PanicLevel (getLevelThreshold FatalLevel) /\
  (PanicLevel < FatalLevel)%Z.
Proof.
  split; [|split; [|split]].
  - intros F L. apply getLevelThreshold_from_order, NoDup_AllLevels.
  - simpl. intuition discriminate.
  - simpl. auto.
  - reflexivity.
Qed.

(** ** The message for a chat *)

Lemma enableNotificationOn_keeps ls l msg :
  ChatID (enableNotificationOn ls l msg) = ChatID msg /\
  Text (enableNotificationOn ls l msg) = Text msg /\
  ParseMode (enableNotificationOn ls l msg) = ParseMode msg.
Proof.
  induction ls as [|x rest IH]; simpl; [auto|].
  destruct (l =? x)%Z; [simpl; auto | exact IH].
Qed.

Lemma enableNotificationOn_enabled ls l msg :
  DisableNotification msg = false ->
  DisableNotification (enableNotificationOn ls l msg) = false.
Proof.
  intros H. rewrite enableNotificationOn_spec, H. destruct (level_in l ls); reflexivity.
Qed.

(** The four members of the message for a chat. *)
Lemma chatMessage_members c id e fs :
  ChatID (chatMessage c id e fs) = id /\
  Text (chatMessage c id e fs) = formatMessage c e fs /\
  ParseMode (chatMessage c id e fs) = parseMode_or_empty c /\
  DisableNotification (chatMessage c id e fs) =
    (disableNotification c && negb (level_in (Entry_Level e) (enableNotificationOnLevels c)))%bool.
Proof.
  assert (D : DisableNotification (chatMessage c id e fs) =
              (disableNotification c
               && negb (level_in (Entry_Level e) (enableNotificationOnLevels c)))%bool).
  { destruct (disableNotification c) eqn:Hd.
    - rewrite chatMessage_DisableNotification by exact Hd. reflexivity.
    - unfold chatMessage. rewrite Hd. simpl.
      assert (K : forall m, DisableNotification m = false ->
                  DisableNotification
                    (if 0 <? length (enableNotificationOnLevels c)
                     then enableNotificationOn (enableNotificationOnLevels c) (Entry_Level e) m
                     else m) = false).
      { intros m Hm. destruct (0 <? length (enableNotificationOnLevels c)); [|exact Hm].
        apply enableNotificationOn_enabled. exact Hm. }
      destruct (parseMode c); simpl; apply K; reflexivity. }
  unfold chatMessage, parseMode_or_empty in *.
  set (m0 := set_DisableNotification (disableNotification c)
               (NewMessage id (formatMessage c e fs))) in *.
  assert (K : ChatID (if 0 <? length (enableNotificationOnLevels c)
                      then enableNotificationOn (enableNotificationOnLevels c) (Entry_Level e) m0
                      else m0) = id /\
              Text (if 0 <? length (enableNotificationOnLevels c)
                    then enableNotificationOn (enableNotificationOnLevels c) (Entry_Level e) m0
                    else m0) = formatMessage c e fs /\
              ParseMode (if 0 <? length (enableNotificationOnLevels c)
                         then enableNotificationOn (enableNotificationOnLevels c) (Entry_Level e) m0
                         else m0) = EmptyString).
  { destruct (0 <? length (enableNotificationOnLevels c)).
    - destruct (enableNotificationOn_keeps (enableNotificationOnLevels c) (Entry_Level e) m0)
        as (-> & -> & ->). repeat split.
    - repeat split. }
  destruct K as (K1 & K2 & K3).
  destruct (parseMode c); simpl; repeat split; assumption.
Qed.

(** X2: when Telegram accepts every message, [sendMessage] returns no
    error after exactly one call for each chat of the client, in the
    order of [chatIDs]; each message carries the text [formatMessage]
    gives for the entry and the fields, the parse mode of the client (the
    empty string when none is set) and is silent exactly when
    notification is disabled on the client and the level of the entry is
    none of [enableNotificationOnLevels]. Nothing is logged and nothing
    else changes. *)
Theorem sendMessage_accepted_calls_every_chat c e fs w :
  (forall hist m, telegram w hist m = None) ->
  exists w',
    sendMessage c e fs w = Ret None w' /\
    sendCalls w' = sendCalls w ++ messages_for c e (view fs w) (chatIDs c) /\
    map ChatID (messages_for c e (view fs w) (chatIDs c)) = chatIDs c /\
    Forall (fun m =>
              Text m = formatMessage c e (view fs w) /\
              ParseMode m = parseMode_or_empty c /\
              DisableNotification m =
                (disableNotification c
                 && negb (level_in (Entry_Level e) (enableNotificationOnLevels c)))%bool)
           (messages_for c e (view fs w) (chatIDs c)) /\
    stdlog w' = stdlog w /\ heap w' = heap w /\ chans w' = chans w /\
    goroutines w' = goroutines w.
Proof.
  intros Hok. eexists. split.
  { unfold sendMessage. apply sendMessage_range_accepted. exact Hok. }
  simpl. split; [reflexivity|]. split.
  { unfold messages_for. rewrite map_map.
    induction (chatIDs c) as [|id ids IH]; simpl; [reflexivity|].
    rewrite IH. f_equal. apply chatMessage_members. }
  split; [|repeat split].
  apply Forall_forall. intros m Hm. unfold messages_for in Hm.
  apply in_map_iff in Hm as (id & <- & _).
  destruct (chatMessage_members c id e (view fs w)) as (_ & T & P & D). auto.
Qed.

Lemma sendMessage_accepted_calls_every_chat_witness :
  exists w',
    sendMessage (tgClient sample_core) (sample_entry ErrorLevel "boom") emptySlice
      (start telegram_accepts) = Ret None w' /\
    map ChatID (sendCalls w') = [1%Z] /\ stdlog w' = [].
Proof.
  destruct (sendMessage_accepted_calls_every_chat (tgClient sample_core)
              (sample_entry ErrorLevel "boom") emptySlice (start telegram_accepts))
    as (w' & H & Hc & Hid & _ & Hl & _).
  - reflexivity.
  - exists w'. split; [exact H|]. split; [|exact Hl].
    rewrite Hc. simpl sendCalls. simpl app. exact Hid.
Defined.

(** What [sendMessage] returns, calls and logs. *)
Lemma sendMessage_range_report c e fs : forall ids w,
  exists r w' done rest,
    sendMessage_range c ids e fs w = Ret r w' /\
    ids = done ++ rest /\
    sendCalls w' = sendCalls w ++ messages_for c e (view fs w) done /\
    match r with
    | None => rest = [] /\ stdlog w' = stdlog w
    | Some err =>
        exists front id cause,
          done = front ++ [id] /\
          err = ErrSendChat id cause /\
          stdlog w' = stdlog w ++ [err] /\
          telegram w (sendCalls w ++ messages_for c e (view fs w) front)
                   (chatMessage c id e (view fs w)) = Some cause
    end.
Proof.
  induction ids as [|id ids IH]; intros w.
  - exists None, w, [], []. simpl. unfold ret. rewrite app_nil_r. auto.
  - simpl. unfold bind, load, botAPI_Send.
    destruct (telegram w (sendCalls w) (chatMessage c id e (view fs w))) as [cause|] eqn:Ht.
    + exists (Some (ErrSendChat id cause)). eexists. exists [id], ids.
      split; [reflexivity|]. simpl. split; [reflexivity|]. split; [reflexivity|].
      exists [], id, cause. simpl. rewrite app_nil_r. auto.
    + destruct (IH (set_sendCalls (sendCalls w ++ [chatMessage c id e (view fs w)]) w))
        as (r & w' & done & rest & H & Hids & Hc & Hr).
      exists r, w', (id :: done), rest.
      split; [exact H|]. split; [simpl; congruence|].
      simpl in Hc. change (view fs (set_sendCalls _ w)) with (view fs w) in *.
      split; [rewrite Hc, <- app_assoc; reflexivity|].
      destruct r as [err|]; [|exact Hr].
      destruct Hr as (front & i & cause & Hd & He & Hl & Ht').
      exists (id :: front), i, cause. simpl in Hl, Ht'.
      split; [simpl; congruence|]. split; [exact He|]. split; [exact Hl|].
      simpl. rewrite <- app_assoc in Ht'. exact Ht'.
Qed.

(** X3: [sendMessage] always returns. The chats it called are a first
    part of [chatIDs], in order. Without an error it called them all and
    logged nothing. An error is the failure of the last chat called: it
    names that chat, wraps the error Telegram gave for it, and is printed
    on the log, once. *)
Theorem sendMessage_reports_the_failing_chat c e fs w :
  exists r w' done rest,
    sendMessage c e fs w = Ret r w' /\
    chatIDs c = done ++ rest /\
    sendCalls w' = sendCalls w ++ messages_for c e (view fs w) done /\
    match r with
    | None => rest = [] /\ stdlog w' = stdlog w
    | Some err =>
        exists front id cause,
          done = front ++ [id] /\
          err = ErrSendChat id cause /\
          stdlog w' = stdlog w ++ [err] /\
          telegram w (sendCalls w ++ messages_for c e (view fs w) front)
                   (chatMessage c id e (view fs w)) = Some cause
    end.
Proof. apply sendMessage_range_report. Qed.

(** ** [Write] in the three modes *)

(** X4: in asynchronous mode [Write] returns no error before anything is
    sent: it makes no call on the Telegram API and logs nothing, it only
    starts one goroutine, holding the entry and the fields of the call
    followed by the inherited ones. The calls are made when the goroutine
    runs, and what [sendMessage] returns there, an error or none, is
    dropped. Asynchronous mode is tested first: the queue is not used
    even when [queue] is set. *)
Theorem Write_async_returns_before_sending c e fs w :
  async c = true ->
  wf_slice w fs ->
  exists s w',
    Write c e fs w = Ret None w' /\
    sendCalls w' = sendCalls w /\ stdlog w' = stdlog w /\ chans w' = chans w /\
    goroutines w' = goroutines w ++ [GoSendMessage (tgClient c) e s] /\
    view s w' = view fs w ++ view (inheritedFields c) w /\
    exists r w'' done rest,
      sendMessage (tgClient c) e s w' = Ret r w'' /\
      runTask (GoSendMessage (tgClient c) e s) [] w' = Ret tt w'' /\
      chatIDs (tgClient c) = done ++ rest /\
      (chatIDs (tgClient c) <> [] -> done <> []) /\
      sendCalls w'' =
      sendCalls w ++
      messages_for (tgClient c) e (view fs w ++ view (inheritedFields c) w) done.
Proof.
  intros Ha Hwf.
  destruct (append_spec fs (view (inheritedFields c) w) w Hwf)
    as (s & w1 & H & Hv & _ & _ & _ & _ & Hch & Hsc & Hg & Hl & _).
  exists s, (set_goroutines (goroutines w1 ++ [GoSendMessage (tgClient c) e s]) w1).
  split.
  { unfold Write, Write_entryFields, bind, load. rewrite H, Ha. reflexivity. }
  simpl. split; [exact Hsc|]. split; [exact Hl|]. split; [exact Hch|].
  split; [rewrite Hg; reflexivity|].
  change (view s (set_goroutines (goroutines w1 ++ [GoSendMessage (tgClient c) e s]) w1))
    with (view s w1).
  split; [exact Hv|].
  destruct (sendMessage_spec (tgClient c) e s
              (set_goroutines (goroutines w1 ++ [GoSendMessage (tgClient c) e s]) w1))
    as (r & w2 & done & rest & Hs & Hids & Hc & _ & _ & _ & _ & Hne & _).
  exists r, w2, done, rest.
  split; [exact Hs|].
  split; [simpl; unfold bind; rewrite Hs; reflexivity|].
  split; [exact Hids|]. split; [exact Hne|].
  rewrite Hc. simpl. rewrite Hsc.
  change (view s (set_goroutines (goroutines w1 ++ [GoSendMessage (tgClient c) e s]) w1))
    with (view s w1).
  rewrite Hv. reflexivity.
Qed.

Lemma Write_async_returns_before_sending_witness :
  exists c w,
    NewTelegramCore "token" [1%Z] [] (start (telegram_refuses 1)) = Ret (Some c, None) w /\
    exists s w',
      Write c (sample_entry ErrorLevel "boom") emptySlice w = Ret None w' /\
      sendCalls w' = sendCalls w /\
      goroutines w' = goroutines w ++ [GoSendMessage (tgClient c) (sample_entry ErrorLevel "boom") s].
Proof.
  eexists. eexists. split; [vm_compute; reflexivity|].
  match goal with |- exists s w', Write ?c ?e ?fs ?w = _ /\ _ =>
    destruct (Write_async_returns_before_sending c e fs w eq_refl)
      as (s & w' & H1 & H2 & _ & _ & H3 & _)
  end.
  - split; simpl; lia.
  - exists s, w'. auto.
Defined.

(** [Write] on a queue that is full waits. *)
Lemma Write_full_queue c e fs w i cap buf :
  async c = false -> queue c = true -> entriesChan c = Some i ->
  nth_error (chans w) i = Some {| ch_cap := cap; ch_buf := buf |} ->
  cap <= length buf ->
  Write c e fs w = Blocked.
Proof.
  intros Ha Hq Hch Hnth Hfull.
  destruct (Write_entryFields_returns c fs w) as (s & w1 & H & Hc & _).
  unfold Write, bind. rewrite H, Ha, Hq, Hch. unfold chan_send. rewrite Hc, Hnth. simpl.
  destruct (Nat.ltb_spec (length buf) cap); [lia | reflexivity].
Qed.

(** X5: in queued mode [Write] on a full queue does not return: the
    caller waits for room. On a queue of capacity 0 the wait never ends:
    the queue is never seen to hold an entry, so a drain takes nothing
    out and leaves the world as it is. *)
Theorem Write_blocks_on_a_full_queue c e fs w i cap buf :
  async c = false -> queue c = true -> entriesChan c = Some i ->
  nth_error (chans w) i = Some {| ch_cap := cap; ch_buf := buf |} ->
  cap <= length buf ->
  Write c e fs w = Blocked /\
  (buf = [] -> handleNewQueueEntries c w = Ret tt w /\ Sync c w = Ret None w).
Proof.
  intros Ha Hq Hch Hnth Hfull.
  split; [eapply Write_full_queue; eassumption|].
  intros ->.
  assert (E : handleNewQueueEntries c w = Ret tt w).
  { unfold handleNewQueueEntries, chan_len. rewrite Hch, Hnth. simpl.
    unfold chan_len. rewrite Hch, Hnth. reflexivity. }
  split; [exact E|]. unfold Sync. rewrite Hq. unfold bind. rewrite E. reflexivity.
Qed.

Lemma Write_blocks_on_a_full_queue_witness :
  exists c w,
    NewTelegramCore "token" [1%Z] [WithQueue background 10 0] (start telegram_accepts)
      = Ret (Some c, None) w /\
    Write c (sample_entry ErrorLevel "boom") emptySlice w = Blocked /\
    Sync c w = Ret None w.
Proof.
  eexists. eexists. split; [vm_compute; reflexivity|].
  match goal with |- Write ?c ?e ?fs ?w = _ /\ _ =>
    destruct (Write_blocks_on_a_full_queue c e fs w 0 0 []
                eq_refl eq_refl eq_refl eq_refl (le_n 0)) as (H1 & H2)
  end.
  split; [exact H1|]. apply H2. reflexivity.
Defined.

(** X6: a queue made by [WithQueue] with a size that is not negative
    takes that many entries, no more: from the core and the world the
    option leaves, as many calls of [Write] as the size return no error,
    and the call after them waits. The option makes the channel, empty,
    sets queued mode, and starts one goroutine, the drain loop. *)
Theorem WithQueue_capacity ctx interval size c w :
  (0 <= size)%Z ->
  exists c' w',
    WithQueue ctx interval size c w = Ret (c', None) w' /\
    async c' = false /\ queue c' = true /\ intervalQueue c' = interval /\
    entriesChan c' = Some (length (chans w)) /\
    chans w' = chans w ++ [{| ch_cap := Z.to_nat size; ch_buf := [] |}] /\
    goroutines w' = goroutines w ++ [GoConsumeEntriesQueue c' ctx] /\
    forall es, length es = Z.to_nat size ->
      exists w1,
        Write_each c' es w' = Ret (map (fun _ => None) es) w1 /\
        chan_len (entriesChan c') w1 = Z.to_nat size /\
        forall e fs, Write c' e fs w1 = Blocked.
Proof.
  intros Hsize. unfold WithQueue, bind, make_chan.
  destruct (Z.ltb_spec size 0) as [Hneg|_]; [lia|].
  eexists. eexists. split; [reflexivity|]. simpl.
  repeat (split; [reflexivity|]).
  intros es Hlen.
  match goal with |- exists w1, Write_each ?c' es ?w' = _ /\ _ =>
    destruct (Write_each_queued c' (length (chans w)) (Z.to_nat size) es [] w')
      as (q & w1 & He & Hn & Hm & _)
  end; try reflexivity.
  { simpl. rewrite nth_error_app2 by lia. rewrite Nat.sub_diag. reflexivity. }
  { simpl. lia. }
  exists w1. split; [exact He|]. simpl in Hn.
  assert (Lq : length q = Z.to_nat size).
  { rewrite <- (length_map entry q), Hm, length_map. exact Hlen. }
  split.
  { unfold chan_len. simpl. rewrite Hn. exact Lq. }
  intros e fs.
  apply (Write_full_queue _ e fs w1 (length (chans w)) (Z.to_nat size) q);
    try reflexivity; [exact Hn | lia].
Qed.

Lemma WithQueue_capacity_witness :
  exists c' w' w1,
    WithQueue background 10 2 sample_core (start telegram_accepts) = Ret (c', None) w' /\
    Write_each c' [(sample_entry WarnLevel "first", emptySlice);
                   (sample_entry ErrorLevel "second", emptySlice)] w'
      = Ret [None; None] w1 /\
    Write c' (sample_entry ErrorLevel "third") emptySlice w1 = Blocked.
Proof.
  destruct (WithQueue_capacity background 10 2 sample_core (start telegram_accepts))
    as (c' & w' & H & _ & _ & _ & _ & _ & _ & Hes); [lia|].
  destruct (Hes [(sample_entry WarnLevel "first", emptySlice);
                 (sample_entry ErrorLevel "second", emptySlice)] eq_refl)
    as (w1 & H1 & _ & H2).
  exists c', w', w1. split; [exact H|]. split; [exact H1 | apply H2].
Defined.

(** ** Draining *)

(** The calls of a drain, entry by entry: each entry gets calls for a
    first part of the chats, whatever Telegram answered before. *)
Lemma sendMessage_each_blocks c : forall q w,
  exists w' blocks,
    sendMessage_each c q w = Ret tt w' /\
    heap w' = heap w /\ chans w' = chans w /\
    sendCalls w' = sendCalls w ++ concat blocks /\
    Forall2 (fun x block =>
               exists done rest,
                 chatIDs c = done ++ rest /\
                 (chatIDs c <> [] -> done <> []) /\
                 block = messages_for c (entry x) (view (fields x) w) done)
            q blocks.
Proof.
  induction q as [|x q IH]; intros w; simpl.
  - exists w, []. unfold ret. simpl. rewrite app_nil_r. auto.
  - destruct (sendMessage_spec c (entry x) (fields x) w)
      as (r & w1 & done & rest & Hs & Hids & Hc & Hh & Hch & _ & _ & Hne & _).
    unfold bind. rewrite Hs.
    destruct (IH w1) as (w2 & blocks & H2 & Hh2 & Hch2 & Hc2 & HF).
    exists w2, (messages_for c (entry x) (view (fields x) w) done :: blocks).
    split; [exact H2|]. split; [congruence|]. split; [congruence|].
    split; [simpl; rewrite Hc2, Hc, <- app_assoc; reflexivity|].
    constructor.
    + exists done, rest. auto.
    + eapply Forall2_impl; [|exact HF].
      intros y b (d & rst & E1 & E2 & E3). exists d, rst.
      split; [exact E1|]. split; [exact E2|].
      unfold view in *. rewrite <- Hh. exact E3.
Qed.

(** X7: a send that fails does not stop a drain. [Sync] on a core in
    queued mode returns no error whatever Telegram answers, leaves the
    queue empty, and has called the Telegram API for every entry that
    was queued, in the order of the queue: for each entry a first part,
    not empty, of the chats of the client. *)
Theorem Sync_goes_on_after_a_failed_send c i cap q w :
  queue c = true -> entriesChan c = Some i ->
  nth_error (chans w) i = Some {| ch_cap := cap; ch_buf := q |} ->
  chatIDs (tgClient c) <> [] ->
  exists w' blocks,
    Sync c w = Ret None w' /\
    chan_len (entriesChan c) w' = 0 /\
    sendCalls w' = sendCalls w ++ concat blocks /\
    Forall2 (fun x block =>
               block <> [] /\
               exists done rest,
                 chatIDs (tgClient c) = done ++ rest /\
                 block = messages_for (tgClient c) (entry x) (view (fields x) w) done)
            q blocks.
Proof.
  intros Hq Hch Hnth Hids.
  destruct (sendMessage_each_blocks (tgClient c) q
              (set_chans (update i {| ch_cap := cap; ch_buf := [] |} (chans w)) w))
    as (w' & blocks & H & Hh & Hc & Hs & HF).
  exists w', blocks. split.
  { unfold Sync. rewrite Hq. unfold bind, handleNewQueueEntries.
    assert (El : chan_len (entriesChan c) w = length q).
    { unfold chan_len. rewrite Hch, Hnth. reflexivity. }
    rewrite El, (handleNewQueueEntries_loop_spec c i cap q (length q) w Hch Hnth (le_n _)), H.
    reflexivity. }
  split.
  { unfold chan_len. rewrite Hch, Hc. simpl.
    rewrite (nth_error_update_eq i {| ch_cap := cap; ch_buf := [] |} _ _ Hnth). reflexivity. }
  split; [exact Hs|].
  eapply Forall2_impl; [|exact HF].
  intros x b (d & rst & E1 & E2 & E3). split.
  - rewrite E3. specialize (E2 Hids). destruct d; [contradiction | discriminate].
  - exists d, rst. split; [exact E1 | exact E3].
Qed.

Lemma Sync_goes_on_after_a_failed_send_witness :
  exists c w,
    NewTelegramCore "token" [1%Z; 2%Z] [WithQueue background 10 2] (start (telegram_refuses 1))
      = Ret (Some c, None) w /\
    exists w1 w2,
      Write_each c [(sample_entry WarnLevel "first", emptySlice);
                    (sample_entry ErrorLevel "second", emptySlice)] w
        = Ret [None; None] w1 /\
      Sync c w1 = Ret None w2 /\
      chan_len (entriesChan c) w2 = 0 /\
      map ChatID (sendCalls w2) = [1%Z; 1%Z].
Proof.
  eexists. eexists. split; [vm_compute; reflexivity|].
  eexists.
  match goal with |- exists w2, Write_each ?c ?es ?w = Ret _ ?w1 /\ _ =>
    assert (Hw : Write_each c es w = Ret [None; None] w1) by (vm_compute; reflexivity)
  end.
  match type of Hw with Write_each ?c _ _ = Ret _ ?w1 =>
    destruct (Sync_goes_on_after_a_failed_send c 0 2
                [{| entry := sample_entry WarnLevel "first"; fields := emptySlice |};
                 {| entry := sample_entry ErrorLevel "second"; fields := emptySlice |}] w1
                eq_refl eq_refl eq_refl ltac:(discriminate))
      as (w2 & blocks & H1 & H2 & _)
  end.
  exists w2. split; [exact Hw|]. split; [exact H1|]. split; [exact H2|].
  vm_compute in H1. inversion H1. reflexivity.
Defined.

(** ** Derived cores *)

(** X8: a core derived by [With] differs from its parent by the inherited
    fields only: it has the client, the enabler, the mode and the queue
    of the parent, and deriving it sends nothing, queues nothing and
    starts nothing. In queued mode an entry written through the derived
    core goes into the queue of the parent, and [Sync] on the parent
    delivers it, with the fields of the call, the inherited fields of the
    parent and the fields given to [With], in that order. *)
Theorem With_shares_the_queue c F e fs w i cap :
  wf_slice w (inheritedFields c) -> wf_slice w fs ->
  async c = false -> queue c = true -> entriesChan c = Some i ->
  nth_error (chans w) i = Some {| ch_cap := cap; ch_buf := [] |} ->
  0 < cap ->
  exists c' w1 w2 w3,
    With c F w = Ret c' w1 /\
    tgClient c' = tgClient c /\ enabler c' = enabler c /\ levels c' = levels c /\
    async c' = async c /\ queue c' = queue c /\
    intervalQueue c' = intervalQueue c /\ entriesChan c' = entriesChan c /\
    chans w1 = chans w /\ goroutines w1 = goroutines w /\ sendCalls w1 = sendCalls w /\
    Write c' e fs w1 = Ret None w2 /\
    chan_len (entriesChan c) w2 = 1 /\
    Sync c w2 = Ret None w3 /\
    chan_len (entriesChan c) w3 = 0 /\
    ((forall hist m, telegram w hist m = None) ->
     sendCalls w3 =
     sendCalls w ++
     messages_for (tgClient c) e (view fs w1 ++ view (inheritedFields c) w ++ F)
       (chatIDs (tgClient c))).
Proof.
  intros Hwf Hwfs Ha Hq Hch Hnth Hcap.
  destruct (append_spec (inheritedFields c) F w Hwf)
    as (s & w1 & H & Hv & Hwf1 & Keep & _ & _ & Hc1 & Hs1 & Hg1 & _ & (T1 & _)).
  set (c' := set_inheritedFields s c).
  assert (HW : With c F w = Ret c' w1).
  { unfold With, bind. rewrite H. reflexivity. }
  assert (Hnth1 : nth_error (chans w1) i = Some {| ch_cap := cap; ch_buf := [] |})
    by (rewrite Hc1; exact Hnth).
  destruct (Write_queued c' e fs w1 i cap [] Ha Hq Hch Hnth1 Hcap)
    as (s2 & w1' & Hef & Hwr).
  destruct (Write_entryFields_spec c' fs w1 (Keep fs Hwfs)) as (s2' & w1'' & Hef' & Hv2 & Hs2).
  rewrite Hef in Hef'. inversion Hef'; subst s2' w1''. clear Hef'.
  destruct (Write_entryFields_returns c' fs w1)
    as (s2' & w1'' & Hef' & Hc2 & _ & _ & (T2 & _)).
  rewrite Hef in Hef'. inversion Hef'; subst s2' w1''. clear Hef'.
  simpl app in Hwr.
  set (x := {| entry := e; fields := s2 |}) in *.
  set (w2 := set_chans (update i {| ch_cap := cap; ch_buf := [x] |} (chans w1')) w1') in *.
  assert (Hnth2 : nth_error (chans w2) i = Some {| ch_cap := cap; ch_buf := [x] |}).
  { simpl. eapply nth_error_update_eq. rewrite Hc2. exact Hnth1. }
  set (w2e := set_chans (update i {| ch_cap := cap; ch_buf := [] |} (chans w2)) w2).
  assert (Hsync : Sync c w2 = (sendMessage_each (tgClient c) [x] ;;; ret None) w2e).
  { unfold Sync. rewrite Hq. unfold bind at 1. unfold handleNewQueueEntries.
    assert (El : chan_len (entriesChan c) w2 = 1).
    { unfold chan_len. rewrite Hch, Hnth2. reflexivity. }
    rewrite El.
    rewrite (handleNewQueueEntries_loop_spec c i cap [x] 1 w2 Hch Hnth2 (le_n _)).
    reflexivity. }
  destruct (sendMessage_each_spec (tgClient c) [x] w2e)
    as (w3 & H3 & _ & Hc3 & _ & _ & _).
  exists c', w1, w2, w3.
  split; [exact HW|].
  do 7 (split; [reflexivity|]).
  split; [exact Hc1|]. split; [exact Hg1|]. split; [exact Hs1|].
  split; [exact Hwr|].
  split; [unfold chan_len; rewrite Hch, Hnth2; reflexivity|].
  split; [rewrite Hsync; unfold bind; rewrite H3; reflexivity|].
  split.
  { unfold chan_len. rewrite Hch, Hc3. unfold w2e. cbn [chans set_chans].
    rewrite (nth_error_update_eq i {| ch_cap := cap; ch_buf := [] |} _ _ Hnth2). reflexivity. }
  intros Hok.
  rewrite sendMessage_each_accepted in H3.
  - inversion H3; subst w3. simpl. rewrite app_nil_r.
    change (view s2 w2e) with (view s2 w1').
    rewrite Hs2, Hs1, Hv2. simpl. rewrite Hv. reflexivity.
  - intros hist m. simpl. rewrite T2, T1. apply Hok.
Qed.

Lemma With_shares_the_queue_witness :
  exists c w,
    NewTelegramCore "token" [1%Z] [WithQueue background 10 2] (start telegram_accepts)
      = Ret (Some c, None) w /\
    exists c' w1 w2 w3,
      With c [sample_field "app_name" "acme-api"] w = Ret c' w1 /\
      Write c' (sample_entry ErrorLevel "boom") emptySlice w1 = Ret None w2 /\
      Sync c w2 = Ret None w3 /\
      sendCalls w3 =
      sendCalls w ++
      messages_for (tgClient c) (sample_entry ErrorLevel "boom")
        (view emptySlice w1 ++ view (inheritedFields c) w ++ [sample_field "app_name" "acme-api"])
        (chatIDs (tgClient c)).
Proof.
  eexists. eexists. split; [vm_compute; reflexivity|].
  match goal with |- exists c' w1 w2 w3, With ?c ?F ?w = _ /\ Write _ ?e ?fs _ = _ /\ _ =>
    destruct (With_shares_the_queue c F e fs w 0 2)
      as (c' & w1 & w2 & w3 & H1 & _ & _ & _ & _ & _ & _ & _ & _ & _ & _ & H2 & _ & H3 & _ & H4)
  end; try reflexivity; try (split; simpl; lia); try lia.
  exists c', w1, w2, w3. split; [exact H1|]. split; [exact H2|]. split; [exact H3|].
  apply H4. reflexivity.
Defined.

(** [append] with room left happens in place. *)
Lemma append_in_place s xs w :
  s_len s + length xs <= s_cap s ->
  exists w',
    append s xs w =
    Ret {| s_arr := s_arr s; s_off := s_off s;
           s_len := s_len s + length xs; s_cap := s_cap s |} w'.
Proof.
  intros H. unfold append.
  destruct (Nat.leb_spec (s_len s + length xs) (s_cap s)); [|lia].
  eexists. reflexivity.
Qed.

(** X9: two cores derived from the same core share the backing array of
    its inherited fields when that array has room left. The second
    derivation then writes its fields where the first wrote its own: the
    fields the first derived core shows after it are the inherited
    fields of the parent followed by the first fields of the second
    derivation. The parent still shows its own. *)
Theorem With_siblings_overwrite c F1 F2 w :
  wf_slice w (inheritedFields c) ->
  s_len (inheritedFields c) + length F2 <= s_cap (inheritedFields c) ->
  length F1 <= length F2 ->
  exists c1 w1 c2 w2,
    With c F1 w = Ret c1 w1 /\
    With c F2 w1 = Ret c2 w2 /\
    view (inheritedFields c1) w1 = view (inheritedFields c) w ++ F1 /\
    view (inheritedFields c2) w2 = view (inheritedFields c) w ++ F2 /\
    view (inheritedFields c1) w2 = view (inheritedFields c) w ++ firstn (length F1) F2 /\
    view (inheritedFields c) w2 = view (inheritedFields c) w.
Proof.
  intros Hwf Hroom Hle.
  set (s := inheritedFields c) in *.
  destruct (append_in_place s F1 w ltac:(lia)) as (w1 & H1).
  destruct (append_spec s F1 w Hwf)
    as (s1' & w1' & H1' & V1 & _ & Keep1 & Frame1 & _).
  rewrite H1 in H1'. inversion H1'; subst s1' w1'. clear H1'.
  assert (Hwf1 : wf_slice w1 s) by (apply Keep1; exact Hwf).
  destruct (append_in_place s F2 w1 Hroom) as (w2 & H2).
  destruct (append_spec s F2 w1 Hwf1)
    as (s2' & w2' & H2' & V2 & _ & _ & Frame2 & _).
  rewrite H2 in H2'. inversion H2'; subst s2' w2'. clear H2'.
  assert (P1 : view s w1 = view s w) by (apply Frame1; [exact Hwf | lia]).
  assert (P2 : view s w2 = view s w) by (rewrite <- P1; apply Frame2; [exact Hwf1 | lia]).
  rewrite P1 in V2.
  eexists. exists w1. eexists. exists w2.
  split; [unfold With, bind; fold s; rewrite H1; reflexivity|].
  split; [unfold With, bind; fold s; rewrite H2; reflexivity|].
  simpl inheritedFields.
  split; [exact V1|]. split; [exact V2|]. split; [|exact P2].
  assert (E : view {| s_arr := s_arr s; s_off := s_off s;
                      s_len := s_len s + length F1; s_cap := s_cap s |} w2
              = firstn (s_len s + length F1)
                  (view {| s_arr := s_arr s; s_off := s_off s;
                           s_len := s_len s + length F2; s_cap := s_cap s |} w2)).
  { unfold view. simpl. rewrite firstn_firstn.
    replace (Nat.min (s_len s + length F1) (s_len s + length F2))
      with (s_len s + length F1) by lia. reflexivity. }
  rewrite E, V2.
  assert (Lv : length (view s w) = s_len s) by (apply length_view; exact Hwf).
  rewrite firstn_app, Lv.
  rewrite firstn_all2 by lia.
  replace (s_len s + length F1 - s_len s) with (length F1) by lia. reflexivity.
Qed.

Lemma With_siblings_overwrite_witness :
  exists c w,
    With sample_core [sample_field "app_name" "acme-api"] (start telegram_accepts) = Ret c w /\
    exists c1 w1 c2 w2,
      With c [sample_field "user_id" "12345"] w = Ret c1 w1 /\
      With c [sample_field "order_id" "777"] w1 = Ret c2 w2 /\
      view (inheritedFields c1) w1
        = view (inheritedFields c) w ++ [sample_field "user_id" "12345"] /\
      view (inheritedFields c1) w2
        = view (inheritedFields c) w ++ [sample_field "order_id" "777"].
Proof.
  eexists. eexists. split; [vm_compute; reflexivity|].
  match goal with |- exists c1 w1 c2 w2, With ?c ?F1 ?w = _ /\ With _ ?F2 _ = _ /\ _ =>
    destruct (With_siblings_overwrite c F1 F2 w)
      as (c1 & w1 & c2 & w2 & H1 & H2 & V1 & _ & V2 & _)
  end.
  - split; simpl; lia.
  - simpl. lia.
  - simpl. lia.
  - exists c1, w1, c2, w2. auto.
Defined.

(** ** Construction, further *)

(** X10: when the token check of [tgbotapi.NewBotAPI] fails,
    [NewTelegramCore] returns its error wrapped and no core, and has
    applied none of the options: the world is as it was. *)
Theorem NewTelegramCore_bot_error tok ids opts w err :
  tok <> EmptyString -> ids <> [] ->
  getMe w tok = Some err ->
  NewTelegramCore tok ids opts w = Ret (None, Some (ErrNewBot err)) w.
Proof.
  intros Htok Hids Hget. unfold NewTelegramCore.
  destruct (String.eqb_spec tok EmptyString); [contradiction|].
  destruct ids as [|i ids]; [contradiction|].
  change (length (i :: ids) =? 0) with false. cbv iota.
  unfold bind, newTelegramClient, bind, NewBotAPI. rewrite Hget. reflexivity.
Qed.

Lemma NewTelegramCore_bot_error_witness :
  NewTelegramCore "token" [1%Z] [WithQueue background 10 2]
    (with_getMe (fun _ => Some (ErrLibrary "Unauthorized")) (start telegram_accepts))
  = Ret (None, Some (ErrNewBot (ErrLibrary "Unauthorized")))
        (with_getMe (fun _ => Some (ErrLibrary "Unauthorized")) (start telegram_accepts)).
Proof.
  apply NewTelegramCore_bot_error; [discriminate | discriminate | reflexivity].
Defined.

(** An exported option keeps the goroutines started and the channels
    made, and a core is in queued mode only after a drain loop was
    started and a channel made. *)
Lemma public_option_drain o c w c' r w' :
  public_option o -> o c w = Ret (c', r) w' ->
  (queue c = true -> drain_started w /\ chans w <> []) ->
  (drain_started w -> drain_started w') /\
  (chans w <> [] -> chans w' <> []) /\
  (queue c' = true -> drain_started w' /\ chans w' <> []).
Proof.
  unfold drain_started.
  destruct 1; cbv [WithLevel WithStrongLevel WithDisabledNotification WithNotificationOn
                   WithParseMode WithFormatter WithoutAsyncOpt WithQueue ret bind make_chan go].
  1-6: intros [= <- <- <-]; simpl; intuition auto.
  - destruct (queue c) eqn:Hq; intros [= <- <- <-]; simpl; intuition (try congruence).
  - destruct (queueSize <? 0)%Z; [discriminate|].
    intros [= <- <- <-] Hinv. simpl.
    split; [|split].
    + intros (h & cx & Hin). exists h, cx. apply in_or_app. left. exact Hin.
    + intros _ E. apply app_eq_nil in E as [_ E]. discriminate.
    + intros _. split.
      * eexists. eexists. apply in_or_app. right. left. reflexivity.
      * intros E. apply app_eq_nil in E as [_ E]. discriminate.
Qed.

Lemma applyOptions_drain opts : forall c w c' r w',
  Forall public_option opts -> applyOptions opts c w = Ret (c', r) w' ->
  (queue c = true -> drain_started w /\ chans w <> []) ->
  (queue c' = true -> drain_started w' /\ chans w' <> []) /\
  (r = Some ErrAsyncOpt -> drain_started w' /\ chans w' <> []).
Proof.
  induction opts as [|o rest IH]; simpl; intros c w c' r w' Hpub H Hinv.
  - inversion H; subst. split; [exact Hinv | discriminate].
  - inversion Hpub as [|? ? Ho Hrest]; subst.
    apply bind_Ret in H as ([c1 r1] & w1 & H1 & H2).
    destruct (public_option_drain _ _ _ _ _ _ Ho H1 Hinv) as (D1 & D2 & D3).
    destruct (public_option_inv _ _ _ _ _ _ Ho H1) as (_ & _ & _ & _ & _ & _ & Q & R).
    destruct r1 as [err|].
    + inversion H2; subst. split; [exact D3|].
      intros E. destruct R as [R|[_ Hq]]; [discriminate|].
      destruct (Hinv Hq) as (A & B). split; [apply D1; exact A | apply D2; exact B].
    + apply (IH _ _ _ _ _ Hrest H2 D3).
Qed.

(** X11: when [NewTelegramCore] fails on the options with [ErrAsyncOpt],
    it has made a channel and started a drain loop all the same, for a
    core it does not return: the error comes from [WithoutAsyncOpt]
    meeting queued mode, which only [WithQueue] sets, after it has made
    the channel and started the goroutine. *)
Theorem NewTelegramCore_ErrAsyncOpt_leaves_a_drain_loop tok ids opts w r w' :
  Forall public_option opts ->
  NewTelegramCore tok ids opts w = Ret (r, Some ErrAsyncOpt) w' ->
  r = None /\ drain_started w' /\ chans w' <> [].
Proof.
  intros Hpub H. split; [eapply NewTelegramCore_error_no_core; exact H|].
  unfold NewTelegramCore in H.
  destruct (String.eqb tok EmptyString); [discriminate|].
  destruct (length ids =? 0); [discriminate|].
  unfold bind, newTelegramClient, NewBotAPI, bind, ret in H.
  destruct (getMe w tok); [discriminate|].
  match type of H with context [applyOptions opts ?c0 w] =>
    destruct (applyOptions opts c0 w) as [[c1 [e|]] w1| | |] eqn:Happ end;
    try discriminate.
  inversion H; subst.
  apply (applyOptions_drain _ _ _ _ _ _ Hpub Happ); [|reflexivity].
  simpl. discriminate.
Qed.

Lemma NewTelegramCore_ErrAsyncOpt_leaves_a_drain_loop_witness :
  exists w',
    NewTelegramCore "token" [1%Z] [WithQueue background 10 2; WithoutAsyncOpt]
      (start telegram_accepts) = Ret (None, Some ErrAsyncOpt) w' /\
    drain_started w' /\ chans w' <> [].
Proof.
  eexists. split; [vm_compute; reflexivity|].
  eapply (NewTelegramCore_ErrAsyncOpt_leaves_a_drain_loop "token" [1%Z]
            [WithQueue background 10 2; WithoutAsyncOpt] (start telegram_accepts) None).
  - repeat constructor.
  - vm_compute. reflexivity.
Defined.

Lemma applyOptions_succeeds opts : forall c w,
  Forall option_succeeds opts -> exists c' w', applyOptions opts c w = Ret (c', None) w'.
Proof.
  induction opts as [|o rest IH]; intros c w Hs; simpl.
  - exists c, w. reflexivity.
  - inversion Hs as [|? ? Ho Hrest]; subst.
    destruct (Ho c w) as (c1 & w1 & H1). unfold bind. rewrite H1. apply IH. exact Hrest.
Qed.

(** X12: a negative queue size makes the construction panic: when the
    options before [WithQueue] go through, [make] panics in [WithQueue],
    and [NewTelegramCore] returns neither a core nor an error. *)
Theorem NewTelegramCore_negative_queue_size tok ids pre ctx interval size post w :
  tok <> EmptyString -> ids <> [] -> getMe w tok = None ->
  Forall option_succeeds pre ->
  (size < 0)%Z ->
  NewTelegramCore tok ids (pre ++ WithQueue ctx interval size :: post) w
  = Panicked "makechan: size out of range".
Proof.
  intros Htok Hids Hget Hpre Hsize. unfold NewTelegramCore.
  destruct (String.eqb_spec tok EmptyString); [contradiction|].
  destruct ids as [|i ids]; [contradiction|].
  change (length (i :: ids) =? 0) with false. cbv iota.
  unfold bind at 1. unfold newTelegramClient, bind, NewBotAPI. rewrite Hget. unfold ret.
  rewrite applyOptions_app.
  match goal with |- context [applyOptions pre ?c0 w] =>
    destruct (applyOptions_succeeds pre c0 w Hpre) as (c1 & w1 & H1) end.
  rewrite H1. simpl. unfold bind, WithQueue, make_chan, bind.
  destruct (Z.ltb_spec size 0); [reflexivity | lia].
Qed.

Lemma NewTelegramCore_negative_queue_size_witness :
  NewTelegramCore "token" [1%Z]
    ([WithLevel InfoLevel] ++ WithQueue background 10 (-1) :: [WithParseMode "MarkdownV2"])
    (start telegram_accepts)
  = Panicked "makechan: size out of range".
Proof.
  apply NewTelegramCore_negative_queue_size;
    try discriminate; try reflexivity.
  repeat constructor. intros c w. eexists. eexists. reflexivity.
Defined.

(** ** What the options leave on the messages *)

(** What every option of a list leaves alone is left alone by the list. *)
Lemma applyOptions_leaves {T} (proj : TelegramCore -> T) opts : forall c w c' r w',
  Forall (fun o : Option => forall c w c' r w', o c w = Ret (c', r) w' -> proj c' = proj c) opts ->
  applyOptions opts c w = Ret (c', r) w' ->
  proj c' = proj c.
Proof.
  induction opts as [|o rest IH]; simpl; intros c w c' r w' Hl H.
  - inversion H; subst. reflexivity.
  - inversion Hl as [|? ? Ho Hrest]; subst.
    apply bind_Ret in H as ([c1 r1] & w1 & H1 & H2).
    pose proof (Ho _ _ _ _ _ H1) as E1.
    destruct r1 as [err|].
    + inversion H2; subst. exact E1.
    + rewrite (IH _ _ _ _ _ Hrest H2). exact E1.
Qed.

(** X13: the parse mode of the last [WithParseMode] among the options is
    the parse mode of every message the constructed core sends, whatever
    was set before it. *)
Theorem WithParseMode_last_wins tok ids pre p post w c w1 :
  NewTelegramCore tok ids (pre ++ WithParseMode p :: post) w = Ret (Some c, None) w1 ->
  Forall leaves_parseMode post ->
  parseMode (tgClient c) = Some p /\
  forall id e fs, ParseMode (chatMessage (tgClient c) id e fs) = p.
Proof.
  intros H Hpost. apply NewTelegramCore_Ret in H as (_ & _ & bot & H).
  rewrite applyOptions_app in H.
  match type of H with context [applyOptions pre ?c0 w] =>
    destruct (applyOptions pre c0 w) as [[c1 [err|]] w2| | |]; try discriminate end.
  simpl in H. unfold bind, WithParseMode at 1, ret in H.
  assert (E : parseMode (tgClient c) = Some p).
  { rewrite (applyOptions_leaves (fun c => parseMode (tgClient c)) post _ _ _ _ _ Hpost H).
    reflexivity. }
  split; [exact E|]. intros id e fs.
  destruct (chatMessage_members (tgClient c) id e fs) as (_ & _ & P & _).
  rewrite P. unfold parseMode_or_empty. rewrite E. reflexivity.
Qed.

Lemma WithParseMode_last_wins_witness :
  exists c w1,
    NewTelegramCore "token" [1%Z]
      ([WithParseMode "HTML"] ++ WithParseMode "MarkdownV2" :: [WithLevel InfoLevel])
      (start telegram_accepts) = Ret (Some c, None) w1 /\
    forall id e fs, ParseMode (chatMessage (tgClient c) id e fs) = "MarkdownV2"%string.
Proof.
  eexists. eexists. split; [vm_compute; reflexivity|].
  eapply (WithParseMode_last_wins "token" [1%Z] [WithParseMode "HTML"] "MarkdownV2"
            [WithLevel InfoLevel] (start telegram_accepts)).
  - vm_compute. reflexivity.
  - repeat constructor. intros c w c' r w' H. inversion H. reflexivity.
Defined.

(** X14: with a formatter set by [WithFormatter], the last one among the
    options, the text of every message is what that formatter gives for
    the entry and the fields; the default layout is not used, nor the
    default logger name. *)
Theorem WithFormatter_last_wins tok ids pre f post w c w1 :
  NewTelegramCore tok ids (pre ++ WithFormatter f :: post) w = Ret (Some c, None) w1 ->
  Forall leaves_formatter post ->
  forall id e fs, Text (chatMessage (tgClient c) id e fs) = f e fs.
Proof.
  intros H Hpost id e fs. apply NewTelegramCore_Ret in H as (_ & _ & bot & H).
  rewrite applyOptions_app in H.
  match type of H with context [applyOptions pre ?c0 w] =>
    destruct (applyOptions pre c0 w) as [[c1 [err|]] w2| | |]; try discriminate end.
  simpl in H. unfold bind, WithFormatter at 1, ret in H.
  assert (E : formatter (tgClient c) = Some f).
  { rewrite (applyOptions_leaves (fun c => formatter (tgClient c)) post _ _ _ _ _ Hpost H).
    reflexivity. }
  destruct (chatMessage_members (tgClient c) id e fs) as (_ & T & _).
  rewrite T. unfold formatMessage. rewrite E. reflexivity.
Qed.

Lemma WithFormatter_last_wins_witness :
  exists c w1,
    NewTelegramCore "token" [1%Z]
      ([] ++ WithFormatter (fun e _ => Entry_Message e) :: [WithoutAsyncOpt])
      (start telegram_accepts) = Ret (Some c, None) w1 /\
    forall id e fs, Text (chatMessage (tgClient c) id e fs) = Entry_Message e.
Proof.
  eexists. eexists. split; [vm_compute; reflexivity|].
  eapply (WithFormatter_last_wins "token" [1%Z] [] (fun e _ => Entry_Message e)
            [WithoutAsyncOpt] (start telegram_accepts)).
  - vm_compute. reflexivity.
  - repeat constructor. intros c w c' r w' H.
    unfold WithoutAsyncOpt, ret in H. destruct (queue c); inversion H; reflexivity.
Defined.

Lemma keeps_notification_levels_list o c w c' r w' :
  keeps_notification_levels o -> o c w = Ret (c', r) w' ->
  enableNotificationOnLevels (tgClient c') = enableNotificationOnLevels (tgClient c) /\
  (disableNotification (tgClient c) = true -> disableNotification (tgClient c') = true).
Proof.
  destruct 1; cbv [WithLevel WithStrongLevel WithDisabledNotification
                   WithParseMode WithFormatter WithoutAsyncOpt WithQueue ret bind make_chan go].
  1-5: intros [= <- <- <-]; simpl; auto.
  - destruct (queue c); intros [= <- <- <-]; simpl; auto.
  - destruct (queueSize <? 0)%Z; [discriminate|].
    intros [= <- <- <-]; simpl; auto.
Qed.

Lemma applyOptions_keeps_notification_list opts : forall c w c' r w',
  Forall keeps_notification_levels opts -> applyOptions opts c w = Ret (c', r) w' ->
  enableNotificationOnLevels (tgClient c') = enableNotificationOnLevels (tgClient c) /\
  (disableNotification (tgClient c) = true -> disableNotification (tgClient c') = true).
Proof.
  induction opts as [|o rest IH]; simpl; intros c w c' r w' Hk H.
  - inversion H; subst. auto.
  - inversion Hk as [|? ? Ho Hrest]; subst.
    apply bind_Ret in H as ([c1 r1] & w1 & H1 & H2).
    destruct (keeps_notification_levels_list _ _ _ _ _ _ Ho H1) as (L1 & D1).
    destruct r1 as [err|].
    + inversion H2; subst. auto.
    + destruct (IH _ _ _ _ _ Hrest H2) as (L2 & D2). split; [congruence | auto].
Qed.

(** X15: with [WithDisabledNotification] among the options and
    [WithNotificationOn] not among them, every message the constructed
    core sends is silent, whatever the level of the entry. *)
Theorem WithDisabledNotification_silences tok ids pre post w c w1 :
  NewTelegramCore tok ids (pre ++ WithDisabledNotification :: post) w = Ret (Some c, None) w1 ->
  Forall keeps_notification_levels pre ->
  Forall keeps_notification_levels post ->
  forall id e fs, DisableNotification (chatMessage (tgClient c) id e fs) = true.
Proof.
  intros H Hpre Hpost id e fs. apply NewTelegramCore_Ret in H as (_ & _ & bot & H).
  rewrite applyOptions_app in H.
  match type of H with context [applyOptions pre ?c0 w] =>
    destruct (applyOptions pre c0 w) as [[c1 [err|]] w2| | |] eqn:Hp; try discriminate end.
  destruct (applyOptions_keeps_notification_list pre _ _ _ _ _ Hpre Hp) as (L1 & _).
  simpl in H, L1. unfold bind, WithDisabledNotification at 1, ret in H.
  destruct (applyOptions_keeps_notification_list post _ _ _ _ _ Hpost H) as (L2 & D2).
  simpl in L2, D2.
  destruct (chatMessage_members (tgClient c) id e fs) as (_ & _ & _ & D).
  rewrite D, (D2 eq_refl), L2, L1. reflexivity.
Qed.

Lemma WithDisabledNotification_silences_witness :
  exists c w1,
    NewTelegramCore "token" [1%Z]
      ([WithLevel InfoLevel] ++ WithDisabledNotification :: [WithoutAsyncOpt])
      (start telegram_accepts) = Ret (Some c, None) w1 /\
    forall id e fs, DisableNotification (chatMessage (tgClient c) id e fs) = true.
Proof.
  eexists. eexists. split; [vm_compute; reflexivity|].
  eapply (WithDisabledNotification_silences "token" [1%Z] [WithLevel InfoLevel]
            [WithoutAsyncOpt] (start telegram_accepts)).
  - vm_compute. reflexivity.
  - repeat constructor.
  - repeat constructor.
Defined.

(** ** The drain loop on its ticks *)

(** A drain of an empty queue does nothing. *)
Lemma handleNewQueueEntries_idle h w :
  chan_len (entriesChan h) w = 0 -> handleNewQueueEntries h w = Ret tt w.
Proof.
  intros E. unfold handleNewQueueEntries. rewrite E. simpl. rewrite E. reflexivity.
Qed.

Lemma iter_idle h w n :
  chan_len (entriesChan h) w = 0 ->
  Nat.iter n (world_after (handleNewQueueEntries h)) w = w.
Proof.
  intros E. induction n as [|n IH]; simpl; [reflexivity|].
  rewrite IH. unfold world_after. rewrite (handleNewQueueEntries_idle h w E). reflexivity.
Qed.

(** X16: as long as its context is not cancelled the drain loop does not
    return. At its first tick it takes out the entries the queue holds
    and sends each once, in the order of the queue: with Telegram
    accepting every message, one call for each chat, entry after entry.
    The ticks that follow find the queue empty and send nothing more. *)
Theorem consumeEntriesQueue_ticks_deliver h ctx n i cap q w :
  (0 < intervalQueue h)%Z ->
  entriesChan h = Some i ->
  nth_error (chans w) i = Some {| ch_cap := cap; ch_buf := q |} ->
  exists w',
    consumeEntriesQueue h ctx (repeat TickerC (S n)) w = Ret Selecting w' /\
    consumeEntriesQueue h ctx [TickerC] w = Ret Selecting w' /\
    chan_len (entriesChan h) w' = 0 /\
    ((forall hist m, telegram w hist m = None) ->
     sendCalls w' =
     sendCalls w ++
     flat_map (fun x => messages_for (tgClient h) (entry x) (view (fields x) w)
                          (chatIDs (tgClient h))) q).
Proof.
  intros Hpos Hch Hnth.
  destruct (handleNewQueueEntries_returns h w) as (w1 & H1 & Hl & _).
  assert (Hw : world_after (handleNewQueueEntries h) w = w1).
  { unfold world_after. rewrite H1. reflexivity. }
  exists w1. unfold consumeEntriesQueue.
  destruct (Z.leb_spec (intervalQueue h) 0) as [Hle|_]; [lia|].
  split; [|split; [|split]].
  - assert (E : Nat.iter (S n) (world_after (handleNewQueueEntries h)) w = w1).
    { change (Nat.iter (S n) (world_after (handleNewQueueEntries h)) w)
        with (world_after (handleNewQueueEntries h)
                (Nat.iter n (world_after (handleNewQueueEntries h)) w)).
      rewrite <- iter_shift, Hw. apply iter_idle. exact Hl. }
    rewrite <- (app_nil_r (repeat TickerC (S n))).
    rewrite consumeEntriesQueue_loop_ticks, E. reflexivity.
  - simpl. unfold bind. rewrite H1. reflexivity.
  - exact Hl.
  - intros Hok. unfold handleNewQueueEntries in H1.
    assert (El : chan_len (entriesChan h) w = length q).
    { unfold chan_len. rewrite Hch, Hnth. reflexivity. }
    rewrite El, (handleNewQueueEntries_loop_spec h i cap q (length q) w Hch Hnth (le_n _)) in H1.
    rewrite sendMessage_each_accepted in H1 by exact Hok.
    inversion H1; subst w1. reflexivity.
Qed.

Lemma consumeEntriesQueue_ticks_deliver_witness :
  exists c w,
    NewTelegramCore "token" [1%Z; 2%Z] [WithQueue background 10 2] (start telegram_accepts)
      = Ret (Some c, None) w /\
    exists w1 w',
      Write_each c [(sample_entry WarnLevel "first", emptySlice);
                    (sample_entry ErrorLevel "second", emptySlice)] w
        = Ret [None; None] w1 /\
      consumeEntriesQueue c background (repeat TickerC 3) w1 = Ret Selecting w' /\
      chan_len (entriesChan c) w' = 0 /\
      map ChatID (sendCalls w') = [1%Z; 2%Z; 1%Z; 2%Z].
Proof.
  eexists. eexists. split; [vm_compute; reflexivity|].
  eexists.
  match goal with |- exists w', Write_each ?c ?es ?w = Ret _ ?w1 /\ _ =>
    assert (Hw : Write_each c es w = Ret [None; None] w1) by (vm_compute; reflexivity)
  end.
  match type of Hw with Write_each ?c _ _ = Ret _ ?w1 =>
    destruct (consumeEntriesQueue_ticks_deliver c background 2 0 2
                [{| entry := sample_entry WarnLevel "first"; fields := emptySlice |};
                 {| entry := sample_entry ErrorLevel "second"; fields := emptySlice |}] w1)
      as (w' & H1 & _ & H2 & H3)
  end; try reflexivity.
  exists w'. split; [exact Hw|]. split; [exact H1|]. split; [exact H2|].
  rewrite H3 by reflexivity. vm_compute. reflexivity.
Defined.

(** ** What [Write] and the constructor leave alone *)

(** X17: [Write] that returns, in whatever mode, leaves the fields the
    caller passed as they were, and the inherited fields of the core
    too when they lie in another array than the caller's. *)
Theorem Write_keeps_the_fields c e fs w r w' :
  wf_slice w fs -> wf_slice w (inheritedFields c) ->
  Write c e fs w = Ret r w' ->
  view fs w' = view fs w /\
  (s_arr (inheritedFields c) <> s_arr fs ->
   view (inheritedFields c) w' = view (inheritedFields c) w).
Proof.
  intros Hwf Hwfi H.
  destruct (append_spec fs (view (inheritedFields c) w) w Hwf)
    as (s & w1 & Ha & _ & _ & _ & Frame & _).
  assert (Hh : heap w' = heap w1).
  { unfold Write, Write_entryFields, bind, load in H. rewrite Ha in H.
    destruct (async c).
    - unfold go, ret in H. inversion H. reflexivity.
    - destruct (queue c).
      + unfold chan_send, ret in H.
        destruct (entriesChan c) as [i|]; [|discriminate].
        destruct (nth_error (chans w1) i) as [ch|]; [|discriminate].
        destruct (length (ch_buf ch) <? ch_cap ch); [|discriminate].
        inversion H. reflexivity.
      + destruct (sendMessage_spec (tgClient c) e s w1)
          as (r' & w2 & done & rest & Hs & _ & _ & Hh2 & _).
        rewrite Hs in H. destruct r'; inversion H; subst; exact Hh2. }
  assert (V : forall t, view t w' = view t w1).
  { intros t. unfold view. rewrite Hh. reflexivity. }
  split.
  - rewrite V. apply Frame; [exact Hwf | lia].
  - intros Hne. rewrite V. apply Frame; [exact Hwfi | intros E; contradiction].
Qed.

Lemma Write_keeps_the_fields_witness :
  exists w',
    Write core_with_fields (sample_entry ErrorLevel "boom") caller_fields world_with_fields
      = Ret None w' /\
    heap w' = [[sample_field "user_id" "12345"; sample_field "app_name" "acme-api"];
               [sample_field "app_name" "acme-api"]] /\
    view caller_fields world_with_fields = [sample_field "user_id" "12345"] /\
    view caller_fields w' = view caller_fields world_with_fields /\
    s_arr (inheritedFields core_with_fields) <> s_arr caller_fields /\
    view (inheritedFields core_with_fields) world_with_fields
      = [sample_field "app_name" "acme-api"] /\
    view (inheritedFields core_with_fields) w'
      = view (inheritedFields core_with_fields) world_with_fields.
Proof.
  eexists.
  match goal with |- Write ?c ?e ?fs ?w = Ret ?r ?w' /\ _ =>
    assert (Hw : Write c e fs w = Ret r w') by (vm_compute; reflexivity)
  end.
  split; [exact Hw|]. split; [reflexivity|]. split; [reflexivity|].
  assert (Hne : s_arr (inheritedFields core_with_fields) <> s_arr caller_fields)
    by (simpl; lia).
  match type of Hw with Write ?c ?e ?fs ?w = Ret ?r ?w' =>
    destruct (Write_keeps_the_fields c e fs w r w') as (K1 & K2)
  end.
  - split; simpl; lia.
  - split; simpl; lia.
  - exact Hw.
  - split; [exact K1|]. split; [exact Hne|]. split; [reflexivity|]. apply K2. exact Hne.
Defined.

Lemma public_option_token o c w c' r w' :
  public_option o -> o c w = Ret (c', r) w' ->
  botAPI (tgClient c') = botAPI (tgClient c) /\ stdlog w' = stdlog w.
Proof.
  destruct 1; cbv [WithLevel WithStrongLevel WithDisabledNotification WithNotificationOn
                   WithParseMode WithFormatter WithoutAsyncOpt WithQueue ret bind make_chan go].
  1-6: intros [= <- <- <-]; simpl; auto.
  - destruct (queue c); intros [= <- <- <-]; simpl; auto.
  - destruct (queueSize <? 0)%Z; [discriminate|].
    intros [= <- <- <-]; simpl; auto.
Qed.

Lemma applyOptions_token opts : forall c w c' r w',
  Forall public_option opts -> applyOptions opts c w = Ret (c', r) w' ->
  botAPI (tgClient c') = botAPI (tgClient c) /\ stdlog w' = stdlog w.
Proof.
  induction opts as [|o rest IH]; simpl; intros c w c' r w' Hpub H.
  - inversion H; subst. auto.
  - inversion Hpub as [|? ? Ho Hrest]; subst.
    apply bind_Ret in H as ([c1 r1] & w1 & H1 & H2).
    destruct (public_option_token _ _ _ _ _ _ Ho H1) as (B1 & L1).
    destruct r1 as [err|].
    + inversion H2; subst. auto.
    + destruct (IH _ _ _ _ _ Hrest H2) as (B2 & L2). split; congruence.
Qed.

(** The core the options of [NewTelegramCore] start from holds the bot
    made for the token. *)
Lemma NewTelegramCore_Ret_bot tok ids opts w c w' :
  NewTelegramCore tok ids opts w = Ret (Some c, None) w' ->
  applyOptions opts
    {| inheritedFields := emptySlice;
       tgClient := {| botAPI := {| Token := tok |}; chatIDs := ids;
                      disableNotification := defaultDisableNotification;
                      enableNotificationOnLevels := [];
                      parseMode := None; formatter := None |};
       enabler := NewAtomicLevelAt defaultLevel;
       levels := [];
       async := defaultAsyncOpt;
       queue := defaultQueueOpt;
       intervalQueue := 0%Z;
       entriesChan := None |} w = Ret (c, None) w'.
Proof.
  unfold NewTelegramCore.
  destruct (String.eqb tok EmptyString); [discriminate|].
  destruct (length ids =? 0); [discriminate|].
  unfold newTelegramClient, NewBotAPI, bind, ret.
  destruct (getMe w tok); [discriminate|].
  match goal with |- context [applyOptions opts ?c0 w] =>
    destruct (applyOptions opts c0 w) as [[c1 [err|]] w1| | |] end;
    try discriminate.
  intros [= <- <-]. reflexivity.
Qed.

(** X18: a core [NewTelegramCore] returns, whatever exported options it
    was given, has the token and the chats the constructor was given,
    neither empty, and inherits no field; no option changes them. The
    construction calls the Telegram API for no message, logs nothing and
    leaves the heap as it was. So [sendMessage] on such a core always
    makes at least one call. *)
Theorem NewTelegramCore_keeps_token_and_chats tok ids opts w c w' :
  Forall public_option opts ->
  NewTelegramCore tok ids opts w = Ret (Some c, None) w' ->
  Token (botAPI (tgClient c)) = tok /\ tok <> EmptyString /\
  chatIDs (tgClient c) = ids /\ ids <> [] /\
  inheritedFields c = emptySlice /\ view (inheritedFields c) w' = [] /\
  sendCalls w' = sendCalls w /\ stdlog w' = stdlog w /\ heap w' = heap w /\
  forall e fs w0, exists r w1 msgs,
    sendMessage (tgClient c) e fs w0 = Ret r w1 /\
    sendCalls w1 = sendCalls w0 ++ msgs /\ msgs <> [].
Proof.
  intros Hpub H.
  pose proof (NewTelegramCore_Ret_bot _ _ _ _ _ _ H) as H'.
  apply NewTelegramCore_Ret in H as (Htok & Hids & _).
  pose proof H' as H.
  apply applyOptions_inv in H as (_ & I & C & Hh & Hs & _); [|exact Hpub].
  apply applyOptions_token in H' as (B & L); [|exact Hpub].
  simpl in I, C, B.
  split; [rewrite B; reflexivity|].
  split; [exact Htok|]. split; [exact C|]. split; [exact Hids|].
  split; [exact I|]. split; [rewrite I; reflexivity|].
  split; [exact Hs|]. split; [exact L|]. split; [exact Hh|].
  intros e fs w0.
  destruct (sendMessage_spec (tgClient c) e fs w0)
    as (r & w1 & done & rest & Hsm & _ & Hc & _ & _ & _ & _ & Hne & _).
  exists r, w1, (map (fun id => chatMessage (tgClient c) id e (view fs w0)) done).
  split; [exact Hsm|]. split; [exact Hc|].
  assert (D : done <> []) by (apply Hne; rewrite C; exact Hids).
  destruct done; [contradiction | discriminate].
Qed.

Lemma NewTelegramCore_keeps_token_and_chats_witness :
  exists c w',
    NewTelegramCore "token" [1%Z; 2%Z] [WithLevel InfoLevel; WithQueue background 10 2]
      (start telegram_accepts) = Ret (Some c, None) w' /\
    Token (botAPI (tgClient c)) = "token"%string /\
    chatIDs (tgClient c) = [1%Z; 2%Z] /\
    inheritedFields c = emptySlice /\
    sendCalls w' = [].
Proof.
  eexists. eexists. split; [vm_compute; reflexivity|].
  match goal with |- Token (botAPI (tgClient ?c)) = _ /\ _ /\ _ /\ sendCalls ?w' = _ =>
    destruct (NewTelegramCore_keeps_token_and_chats "token" [1%Z; 2%Z]
                [WithLevel InfoLevel; WithQueue background 10 2]
                (start telegram_accepts) c w')
      as (H1 & _ & H2 & _ & H3 & _ & H4 & _)
  end.
  - repeat constructor.
  - vm_compute. reflexivity.
  - auto.
Defined.

(** ** The mode of a constructed core *)

(** What the mode members of a core and the channels of the world say of
    each other. *)
Lemma public_option_mode o c w c' r w' :
  public_option o -> o c w = Ret (c', r) w' ->
  ((queue c = true ->
    async c = false /\
    exists i cap, entriesChan c = Some i /\
                  nth_error (chans w) i = Some {| ch_cap := cap; ch_buf := [] |}) /\
   (queue c = false -> entriesChan c = None)) ->
  (queue c' = true ->
   async c' = false /\
   exists i cap, entriesChan c' = Some i /\
                 nth_error (chans w') i = Some {| ch_cap := cap; ch_buf := [] |}) /\
  (queue c' = false -> entriesChan c' = None).
Proof.
  destruct 1; cbv [WithLevel WithStrongLevel WithDisabledNotification WithNotificationOn
                   WithParseMode WithFormatter WithoutAsyncOpt WithQueue ret bind make_chan go].
  1-6: intros [= <- <- <-]; simpl; auto.
  - destruct (queue c) eqn:Hq; intros [= <- <- <-]; simpl; [rewrite Hq; auto|].
    rewrite Hq. intros [_ Hn]. split; [discriminate | exact Hn].
  - destruct (queueSize <? 0)%Z; [discriminate|].
    intros [= <- <- <-] _. simpl. split; [|discriminate].
    intros _. split; [reflexivity|].
    exists (length (chans w)), (Z.to_nat queueSize). split; [reflexivity|].
    rewrite nth_error_app2 by lia. rewrite Nat.sub_diag. reflexivity.
Qed.

Lemma applyOptions_mode opts : forall c w c' w',
  Forall public_option opts -> applyOptions opts c w = Ret (c', None) w' ->
  ((queue c = true ->
    async c = false /\
    exists i cap, entriesChan c = Some i /\
                  nth_error (chans w) i = Some {| ch_cap := cap; ch_buf := [] |}) /\
   (queue c = false -> entriesChan c = None)) ->
  (queue c' = true ->
   async c' = false /\
   exists i cap, entriesChan c' = Some i /\
                 nth_error (chans w') i = Some {| ch_cap := cap; ch_buf := [] |}) /\
  (queue c' = false -> entriesChan c' = None).
Proof.
  induction opts as [|o rest IH]; simpl; intros c w c' w' Hpub H Hinv.
  - inversion H; subst. exact Hinv.
  - inversion Hpub as [|? ? Ho Hrest]; subst.
    apply bind_Ret in H as ([c1 r1] & w1 & H1 & H2).
    pose proof (public_option_mode _ _ _ _ _ _ Ho H1 Hinv) as Hinv1.
    destruct r1 as [err|]; [discriminate|].
    apply (IH _ _ _ _ Hrest H2 Hinv1).
Qed.

(** X19: a core [NewTelegramCore] returns, whatever exported options it
    was given, is never both asynchronous and queued. In queued mode
    its channel is a channel of the world, empty when the core is
    returned, so [Write] is not stuck on a nil channel, and a drain loop
    has been started; out of queued mode it has no channel and [Sync]
    does nothing. *)
Theorem NewTelegramCore_mode tok ids opts w c w' :
  Forall public_option opts ->
  NewTelegramCore tok ids opts w = Ret (Some c, None) w' ->
  (queue c = true ->
   async c = false /\ drain_started w' /\
   exists i cap, entriesChan c = Some i /\
                 nth_error (chans w') i = Some {| ch_cap := cap; ch_buf := [] |}) /\
  (queue c = false -> entriesChan c = None /\ forall w0, Sync c w0 = Ret None w0).
Proof.
  intros Hpub H.
  pose proof (NewTelegramCore_Ret_bot _ _ _ _ _ _ H) as Happ.
  pose proof (applyOptions_mode opts _ _ _ _ Hpub Happ) as Hm.
  pose proof (applyOptions_drain opts _ _ _ _ _ Hpub Happ) as Hd.
  simpl in Hm, Hd.
  destruct Hm as (M1 & M2); [split; [discriminate | reflexivity]|].
  destruct Hd as (D1 & _); [discriminate|].
  split.
  - intros Hq. destruct (M1 Hq) as (A & i & cap & E & N). destruct (D1 Hq) as (D & _).
    split; [exact A|]. split; [exact D|]. exists i, cap. auto.
  - intros Hq. split; [apply M2; exact Hq|].
    intros w0. unfold Sync. rewrite Hq. reflexivity.
Qed.

Lemma NewTelegramCore_mode_witness :
  exists c w',
    NewTelegramCore "token" [1%Z] [WithoutAsyncOpt; WithQueue background 10 2]
      (start telegram_accepts) = Ret (Some c, None) w' /\
    queue c = true /\ async c = false /\ drain_started w' /\
    exists i cap, entriesChan c = Some i /\
                  nth_error (chans w') i = Some {| ch_cap := cap; ch_buf := [] |}.
Proof.
  eexists. eexists. split; [vm_compute; reflexivity|].
  split; [reflexivity|].
  match goal with |- async ?c = _ /\ drain_started ?w' /\ _ =>
    destruct (NewTelegramCore_mode "token" [1%Z] [WithoutAsyncOpt; WithQueue background 10 2]
                (start telegram_accepts) c w') as (H1 & _)
  end.
  - repeat constructor.
  - vm_compute. reflexivity.
  - apply H1. reflexivity.
Defined.

(* ====================================================================== *)
(** * [Write] against [Check], and two receivers on one queue *)
(* ====================================================================== *)

(** [Write] in asynchronous mode: a goroutine for the entry, nothing sent. *)
Lemma Write_async_spec c e fs w :
  async c = true -> wf_slice w fs ->
  exists s w',
    Write c e fs w = Ret None w' /\
    goroutines w' = goroutines w ++ [GoSendMessage (tgClient c) e s] /\
    view s w' = view fs w ++ view (inheritedFields c) w /\
    sendCalls w' = sendCalls w /\ chans w' = chans w.
Proof.
  intros Ha Hwf.
  destruct (append_spec fs (view (inheritedFields c) w) w Hwf)
    as (s & w1 & H & Hv & _ & _ & _ & _ & Hch & Hsc & Hg & _).
  exists s, (set_goroutines (goroutines w1 ++ [GoSendMessage (tgClient c) e s]) w1).
  split.
  { unfold Write, Write_entryFields, bind, load. rewrite H, Ha. reflexivity. }
  simpl. split; [rewrite Hg; reflexivity|].
  split; [exact Hv|]. split; [exact Hsc | exact Hch].
Qed.

(** [Write] in queued mode, the queue having room: the entry is queued
    behind the others with its fields, nothing sent. *)
Lemma Write_queued_spec c e fs w i cap buf :
  async c = false -> queue c = true -> wf_slice w fs ->
  entriesChan c = Some i ->
  nth_error (chans w) i = Some {| ch_cap := cap; ch_buf := buf |} ->
  length buf < cap ->
  exists s w',
    Write c e fs w = Ret None w' /\
    nth_error (chans w') i
      = Some {| ch_cap := cap; ch_buf := buf ++ [{| entry := e; fields := s |}] |} /\
    view s w' = view fs w ++ view (inheritedFields c) w /\
    sendCalls w' = sendCalls w /\ goroutines w' = goroutines w.
Proof.
  intros Ha Hq Hwf Hch Hnth Hroom.
  destruct (Write_queued c e fs w i cap buf Ha Hq Hch Hnth Hroom) as (s & w1 & Hef & Hwr).
  destruct (Write_entryFields_spec c fs w Hwf) as (s' & w1' & Hef' & Hv & Hs).
  rewrite Hef in Hef'. inversion Hef'; subst s' w1'. clear Hef'.
  destruct (Write_entryFields_returns c fs w) as (s' & w1' & Hef' & Hc & _ & Hg & _).
  rewrite Hef in Hef'. inversion Hef'; subst s' w1'. clear Hef'.
  exists s. eexists. split; [exact Hwr|]. simpl.
  split; [eapply nth_error_update_eq; rewrite Hc; exact Hnth|].
  split; [exact Hv|]. split; [exact Hs | exact Hg].
Qed.

(** [Write] in synchronous mode: the messages for the entry are handed to
    the Telegram API before it returns. *)
Lemma Write_sync_spec c e fs w :
  async c = false -> queue c = false -> wf_slice w fs ->
  exists r w' done rest,
    Write c e fs w = Ret r w' /\
    chatIDs (tgClient c) = done ++ rest /\
    (chatIDs (tgClient c) <> [] -> done <> []) /\
    sendCalls w' =
    sendCalls w ++
    messages_for (tgClient c) e (view fs w ++ view (inheritedFields c) w) done.
Proof.
  intros Ha Hq Hwf.
  destruct (Write_entryFields_spec c fs w Hwf) as (s & w1 & Hef & Hv & Hs).
  destruct (sendMessage_spec (tgClient c) e s w1)
    as (r & w2 & done & rest & Hsm & Hids & Hc & _ & _ & _ & _ & Hne & _).
  exists r, w2, done, rest. split.
  { unfold Write, bind. rewrite Hef, Ha, Hq, Hsm. destruct r; reflexivity. }
  split; [exact Hids|]. split; [exact Hne|].
  rewrite Hc, Hs, Hv. reflexivity.
Qed.

(** C7, amended: the level is tested by [Check], not by [Write]. For an
    entry whose level is not enabled [Check] hands the checked entry back
    as it got it, the core not added, so the frontend, which writes to
    the cores [Check] added, leaves the world as it is. [Write] itself
    delivers such an entry like any other: in asynchronous mode it
    starts the goroutine that sends it, in queued mode it puts it in the
    queue when there is room, in synchronous mode it hands the messages
    for it to the Telegram API, for one chat at least when the core has
    one; each time with the fields of the call followed by the inherited
    ones. And it does the same whatever the enabler of the core is. *)
Theorem Check_gates_delivery c ent :
  Enabled c (Entry_Level ent) = false ->
  (forall checked, Check c ent checked = checked) /\
  (forall fields w, Logger_log c ent fields w = Ret tt w) /\
  (forall a fields w, Write (set_enabler a c) ent fields w = Write c ent fields w) /\
  (forall fs w,
      wf_slice w fs ->
      (async c = true ->
       exists s w',
         Write c ent fs w = Ret None w' /\
         goroutines w' = goroutines w ++ [GoSendMessage (tgClient c) ent s] /\
         view s w' = view fs w ++ view (inheritedFields c) w) /\
      (async c = false -> queue c = true ->
       forall i cap buf,
         entriesChan c = Some i ->
         nth_error (chans w) i = Some {| ch_cap := cap; ch_buf := buf |} ->
         length buf < cap ->
         exists s w',
           Write c ent fs w = Ret None w' /\
           nth_error (chans w') i
             = Some {| ch_cap := cap; ch_buf := buf ++ [{| entry := ent; fields := s |}] |} /\
           view s w' = view fs w ++ view (inheritedFields c) w) /\
      (async c = false -> queue c = false ->
       exists r w' done rest,
         Write c ent fs w = Ret r w' /\
         chatIDs (tgClient c) = done ++ rest /\
         (chatIDs (tgClient c) <> [] -> done <> []) /\
         sendCalls w' =
         sendCalls w ++
         messages_for (tgClient c) ent (view fs w ++ view (inheritedFields c) w) done)).
Proof.
  intros H. split; [|split; [|split]].
  - intros checked. unfold Check. rewrite H. reflexivity.
  - intros fields w. unfold Logger_log, Check. rewrite H. reflexivity.
  - intros a fields w. apply Write_set_enabler.
  - intros fs w Hwf. split; [|split].
    + intros Ha. destruct (Write_async_spec c ent fs w Ha Hwf) as (s & w' & A & B & C & _).
      exists s, w'. auto.
    + intros Ha Hq i cap buf Hch Hnth Hroom.
      destruct (Write_queued_spec c ent fs w i cap buf Ha Hq Hwf Hch Hnth Hroom)
        as (s & w' & A & B & C & _).
      exists s, w'. auto.
    + intros Ha Hq. apply Write_sync_spec; assumption.
Qed.

Lemma Check_gates_delivery_witness :
  Enabled core_with_fields DebugLevel = false /\
  Check core_with_fields (sample_entry DebugLevel "noise") None = None /\
  exists r w',
    Write core_with_fields (sample_entry DebugLevel "noise") caller_fields world_with_fields
      = Ret r w' /\
    sendCalls w' =
    [chatMessage (tgClient core_with_fields) 1%Z (sample_entry DebugLevel "noise")
       [sample_field "user_id" "12345"; sample_field "app_name" "acme-api"]].
Proof.
  assert (E : Enabled core_with_fields (Entry_Level (sample_entry DebugLevel "noise")) = false)
    by reflexivity.
  destruct (Check_gates_delivery core_with_fields (sample_entry DebugLevel "noise") E)
    as (A & _ & _ & D).
  split; [exact E|]. split; [apply A|].
  destruct (D caller_fields world_with_fields) as (_ & _ & S); [split; simpl; lia|].
  destruct (S eq_refl eq_refl) as (r & w' & done & rest & Hw & Hids & Hne & Hc).
  exists r, w'. split; [exact Hw|].
  rewrite Hc.
  assert (Hd : done = [1%Z]).
  { simpl in Hids, Hne. destruct done as [|d done].
    - exfalso. apply Hne; [discriminate | reflexivity].
    - simpl in Hids. inversion Hids as [[E1 E2]].
      destruct done; [reflexivity | discriminate]. }
  rewrite Hd. reflexivity.
Defined.

(** ** Two receivers *)

Lemma handleNewQueueEntries_steps_returned n h w :
  handleNewQueueEntries_steps n h DrainReturned w = Ret DrainReturned w.
Proof.
  induction n as [|n IH]; simpl; [reflexivity|]. unfold bind. simpl. exact IH.
Qed.

(** A goroutine alone: stepping through [handleNewQueueEntries] gives what
    the call gives. *)
Lemma handleNewQueueEntries_loop_steps h : forall fuel w w',
  handleNewQueueEntries_loop fuel h w = Ret tt w' ->
  handleNewQueueEntries_steps (S (2 * fuel)) h AtLenTest w = Ret DrainReturned w'.
Proof.
  induction fuel as [|fuel IH]; intros w w' H.
  - simpl in H. simpl. unfold bind. simpl.
    destruct (0 <? chan_len (entriesChan h) w); [discriminate|].
    inversion H; subst. reflexivity.
  - simpl in H.
    replace (S (2 * S fuel)) with (S (S (S (2 * fuel)))) by lia.
    cbn [handleNewQueueEntries_steps]. unfold bind at 1.
    cbn [handleNewQueueEntries_step].
    destruct (0 <? chan_len (entriesChan h) w).
    + unfold bind at 1. cbn [handleNewQueueEntries_step].
      unfold bind in H |- *.
      destruct (chan_recv (entriesChan h) w) as [x w1| | |]; try discriminate.
      destruct (sendMessage (tgClient h) (entry x) (fields x) w1) as [r w2| | |];
        try discriminate.
      unfold ret. apply IH in H. unfold bind in H. exact H.
    + inversion H; subst. apply handleNewQueueEntries_steps_returned.
Qed.

(** The drain loop and a caller of [Sync] on a queue that holds one
    entry. Both test the length and find it positive; the caller of
    [Sync] receives the entry, sends it and returns; the drain loop,
    past its test, is left at its receive on an empty queue: it is
    parked, until a producer queues an entry. *)
Lemma one_entry_two_receivers h c i cap x w :
  entriesChan h = Some i -> entriesChan c = Some i ->
  nth_error (chans w) i = Some {| ch_cap := cap; ch_buf := [x] |} ->
  exists w2,
    interleave [DrainLoop; SyncCaller; SyncCaller; SyncCaller] h c AtLenTest AtLenTest w
      = Ret (AtReceive, DrainReturned) w2 /\
    chan_len (entriesChan h) w2 = 0 /\
    (exists msgs, sendCalls w2 = sendCalls w ++ msgs) /\
    handleNewQueueEntries_step h AtReceive w2 = Blocked /\
    (0 < cap ->
     forall y, exists w3 w4,
       chan_send (entriesChan h) y w2 = Ret tt w3 /\
       handleNewQueueEntries_step h AtReceive w3 = Ret AtLenTest w4).
Proof.
  intros Hh Hc Hnth.
  set (w1 := set_chans (update i {| ch_cap := cap; ch_buf := [] |} (chans w)) w).
  destruct (sendMessage_spec (tgClient c) (entry x) (fields x) w1)
    as (r & w2 & done & rest & Hs & _ & Hcalls & _ & Hch2 & _).
  assert (Hnth2 : nth_error (chans w2) i = Some {| ch_cap := cap; ch_buf := [] |}).
  { rewrite Hch2. unfold w1. simpl. eapply nth_error_update_eq. exact Hnth. }
  exists w2. split; [|split; [|split; [|split]]].
  - cbn [interleave]. unfold bind at 1. cbn [handleNewQueueEntries_step].
    unfold chan_len at 1. rewrite Hh, Hnth. simpl length. cbn [Nat.ltb Nat.leb].
    unfold bind at 1. cbn [handleNewQueueEntries_step].
    unfold chan_len at 1. rewrite Hc, Hnth. simpl length. cbn [Nat.ltb Nat.leb].
    unfold bind at 1. cbn [handleNewQueueEntries_step].
    unfold bind at 1. unfold chan_recv. rewrite Hc, Hnth. cbn [ch_buf ch_cap].
    fold w1. unfold bind at 1. rewrite Hs. unfold ret at 1.
    unfold bind at 1. cbn [handleNewQueueEntries_step].
    unfold chan_len. rewrite Hc, Hnth2. reflexivity.
  - unfold chan_len. rewrite Hh, Hnth2. reflexivity.
  - eexists. exact Hcalls.
  - unfold handleNewQueueEntries_step, bind, chan_recv. rewrite Hh, Hnth2. reflexivity.
  - intros Hcap y. unfold chan_send. rewrite Hh, Hnth2. simpl.
    destruct (Nat.ltb_spec 0 cap) as [_|Hn]; [|lia].
    eexists.
    destruct (sendMessage_spec (tgClient h) (entry y) (fields y)
                (set_chans (update i {| ch_cap := cap; ch_buf := [] |}
                              (update i {| ch_cap := cap; ch_buf := [y] |} (chans w2))) w2))
      as (r' & w4 & d' & rs' & Hs' & _).
    exists w4. split; [reflexivity|].
    unfold handleNewQueueEntries_step, bind, chan_recv. rewrite Hh. simpl chans.
    rewrite (nth_error_update_eq i {| ch_cap := cap; ch_buf := [y] |} _ _ Hnth2).
    cbn [ch_buf ch_cap]. 
    change (set_chans
              (update i {| ch_cap := cap; ch_buf := [] |}
                 (update i {| ch_cap := cap; ch_buf := [y] |} (chans w2)))
              (set_chans (update i {| ch_cap := cap; ch_buf := [y] |} (chans w2)) w2))
      with (set_chans
              (update i {| ch_cap := cap; ch_buf := [] |}
                 (update i {| ch_cap := cap; ch_buf := [y] |} (chans w2))) w2).
    rewrite Hs'. reflexivity.
Qed.

Lemma handleNewQueueEntries_steps_parked n h p w :
  handleNewQueueEntries_step h p w = Blocked ->
  handleNewQueueEntries_steps (S n) h p w = Blocked.
Proof.
  intros H. cbn [handleNewQueueEntries_steps]. unfold bind. rewrite H. reflexivity.
Qed.

(** C8: the drain [consumeEntriesQueue] runs when a case of its [select]
    fires tests [len(h.entriesChan) > 0] and then receives, and [Sync]
    runs the same loop on the same channel from the goroutine that calls
    it. For the core [NewTelegramCore] builds with [WithQueue] and one
    entry written: alone, the loop cancelled delivers the entry, leaves
    the queue empty and returns the error of the context. With a caller
    of [Sync] beside it, both find the length positive, the caller of
    [Sync] receives the entry, sends it and returns, and the drain of
    the loop, past its test, is parked at its receive on an empty queue
    for as many steps as it is given: it returns, and the loop with it,
    only once a producer has written an entry, which it then delivers.
    The same run is there for any two cores on one channel that holds
    one entry. The steps are those of [handleNewQueueEntries]: a call
    that returns is a run of them from the test to the return. *)
Theorem drain_parks_when_Sync_takes_the_entry :
  (forall h w w',
      handleNewQueueEntries h w = Ret tt w' ->
      exists n, handleNewQueueEntries_steps n h AtLenTest w = Ret DrainReturned w') /\
  (forall h ctx rest w,
      (0 < intervalQueue h)%Z ->
      consumeEntriesQueue h ctx (CtxDone :: rest) w
      = (handleNewQueueEntries h ;;; ret (Returned (ctx_Err ctx))) w) /\
  (forall h c i cap x w,
      entriesChan h = Some i -> entriesChan c = Some i ->
      nth_error (chans w) i = Some {| ch_cap := cap; ch_buf := [x] |} ->
      exists w2,
        interleave [DrainLoop; SyncCaller; SyncCaller; SyncCaller] h c AtLenTest AtLenTest w
          = Ret (AtReceive, DrainReturned) w2 /\
        chan_len (entriesChan h) w2 = 0 /\
        forall n, handleNewQueueEntries_steps (S n) h AtReceive w2 = Blocked) /\
  exists c h w0 w1 w2,
    NewTelegramCore "token" [1%Z] [WithQueue background 10 2] (start telegram_accepts)
      = Ret (Some c, None) w0 /\
    goroutines w0 = [GoConsumeEntriesQueue h background] /\
    queue c = true /\ entriesChan h = entriesChan c /\
    Write c (sample_entry ErrorLevel "boom") emptySlice w0 = Ret None w1 /\
    chan_len (entriesChan h) w1 = 1 /\ sendCalls w1 = [] /\
    (exists w',
        consumeEntriesQueue h background [CtxDone] w1 = Ret (Returned Canceled) w' /\
        sendCalls w' = [chatMessage (tgClient h) 1%Z (sample_entry ErrorLevel "boom") []] /\
        chan_len (entriesChan h) w' = 0) /\
    interleave [DrainLoop; SyncCaller; SyncCaller; SyncCaller] h c AtLenTest AtLenTest w1
      = Ret (AtReceive, DrainReturned) w2 /\
    sendCalls w2 = [chatMessage (tgClient c) 1%Z (sample_entry ErrorLevel "boom") []] /\
    chan_len (entriesChan h) w2 = 0 /\
    (forall n, handleNewQueueEntries_steps (S n) h AtReceive w2 = Blocked) /\
    exists w3 w4,
      Write c (sample_entry WarnLevel "later") emptySlice w2 = Ret None w3 /\
      handleNewQueueEntries_steps 2 h AtReceive w3 = Ret DrainReturned w4 /\
      sendCalls w4 =
      sendCalls w2 ++ [chatMessage (tgClient h) 1%Z (sample_entry WarnLevel "later") []].
Proof.
  split; [|split; [|split]].
  - intros h w w' H. exists (S (2 * chan_len (entriesChan h) w)).
    apply handleNewQueueEntries_loop_steps. exact H.
  - intros h ctx rest w Hpos. unfold consumeEntriesQueue.
    destruct (Z.leb_spec (intervalQueue h) 0) as [Hle|_]; [lia|]. reflexivity.
  - intros h c i cap x w Hh Hc Hnth.
    destruct (one_entry_two_receivers h c i cap x w Hh Hc Hnth)
      as (w2 & Hrun & Hlen & _ & Hpark & _).
    exists w2. split; [exact Hrun|]. split; [exact Hlen|].
    intros n. apply handleNewQueueEntries_steps_parked. exact Hpark.
  - do 5 eexists.
    split; [vm_compute; reflexivity|].
    split; [vm_compute; reflexivity|].
    split; [reflexivity|]. split; [reflexivity|].
    split; [vm_compute; reflexivity|].
    split; [reflexivity|]. split; [reflexivity|].
    split; [eexists; split; [vm_compute; reflexivity | split; reflexivity]|].
    split; [vm_compute; reflexivity|].
    split; [reflexivity|]. split; [reflexivity|].
    split; [intros n; apply handleNewQueueEntries_steps_parked; reflexivity|].
    do 2 eexists.
    split; [vm_compute; reflexivity|].
    split; [vm_compute; reflexivity | reflexivity].
Qed.
